(** * Cerebralogik v5.0 serial reader: framing parser and command encoder

    A shallow embedding of [clogik_50_ser.cpp].  The process-wide
    globals of the program ([Phase], [Crc], [RdyFlg], [LocalIndex],
    [MsgCRC], [data1], [packet]) and the three output handles become the
    fields of one record that is threaded through the byte loop of
    [parser].  Machine integers are [Z] with the conversions of the C++
    types written out; an access outside [data1] or outside the input
    buffer has no defined behaviour in the source and is [None] here. *)

From Stdlib Require Import ZArith Lia Ascii Strings.Byte DecimalString SpecFloat.
From stdpp Require Import base option list strings.

Local Open Scope Z_scope.

(** ** Machine integers *)

(** Value of an [unsigned char]. *)
Definition u8 (b : byte) : Z := Z.of_N (Byte.to_N b).

(** Conversion to [unsigned short]: reduction modulo 2^16. *)
Definition to_ushort (z : Z) : Z := z mod 65536.

(** Conversion to [short]: the two's complement reading of the low 16 bits. *)
Definition to_short (z : Z) : Z := (z + 32768) mod 65536 - 32768.

(** Conversion to [unsigned char]. *)
Definition to_uchar (z : Z) : Z := z mod 256.

(** ** Output streams

    Every [fprintf_s] of the source is recorded as the call it is: the
    format string and the promoted arguments.  [render] then interprets
    the conversions the program uses. *)

(** The [double] handed to [%f] is [((float)w)*0.076] for a word [w] of the
    packet.  The call records the word; [scaled_sample] below is the double
    computed from it and [printf_f] the text [%f] gives that double. *)
Inductive printf_arg :=
  | ArgInt (v : Z)
  | ArgScaled (w : Z).

Record fprintf_call := Fprintf { fmt : string; args : list printf_arg }.

Definition nl : string := String "010"%char EmptyString.

(** [%d] of an [int]. *)
Definition dec (v : Z) : string := NilEmpty.string_of_int (Z.to_int v).

Definition hex_digit (d : Z) : ascii :=
  if d <? 10 then ascii_of_nat (Z.to_nat (48 + d))
  else ascii_of_nat (Z.to_nat (55 + d)).

Fixpoint hex_digits (n : nat) (v : Z) (acc : string) : string :=
  match n with
  | O => acc
  | S n' => hex_digits n' (v / 16) (String (hex_digit (v mod 16)) acc)
  end.

(** [%08X] of an [int]: the argument is read as a 32-bit [unsigned int],
    which never needs more than the eight digits of the minimum width. *)
Definition hex8 (v : Z) : string := hex_digits 8 (v mod 4294967296) EmptyString.

Section Render.
(** The text [%f] produces for [((float)w)*0.076]; [printf_scaled] below is
    the function the C conversion makes it. *)
Variable fmt_f : Z -> string.

Fixpoint render (f : string) (a : list printf_arg) {struct f} : option string :=
  match f with
  | EmptyString => Some EmptyString
  | String "%" (String "d" f') =>
      match a with
      | ArgInt v :: a' => String.append (dec v) <$> render f' a'
      | _ => None
      end
  | String "%" (String "f" f') =>
      match a with
      | ArgScaled w :: a' => String.append (fmt_f w) <$> render f' a'
      | _ => None
      end
  | String "%" (String "0" (String "8" (String "X" f'))) =>
      match a with
      | ArgInt v :: a' => String.append (hex8 v) <$> render f' a'
      | _ => None
      end
  | String c f' => String c <$> render f' a
  end.

Definition render_call (c : fprintf_call) : option string := render (fmt c) (args c).

(** Contents of a stream: the calls rendered in order. *)
Fixpoint stream_text (cs : list fprintf_call) : option string :=
  match cs with
  | [] => Some EmptyString
  | c :: cs' => t ← render_call c; r ← stream_text cs'; Some (String.append t r)
  end.
End Render.

(** Number of newline-terminated records in a text. *)
Fixpoint records (t : string) : nat :=
  match t with
  | EmptyString => O
  | String c t' => if Ascii.eqb c "010" then S (records t') else records t'
  end.

(** ** Parser state *)

Record state := State {
  Phase : Z;
  Crc : Z;
  RdyFlg : Z;
  LocalIndex : Z;
  MsgCRC : Z;
  data1 : list Z;
  packet : Z;
  out_gs : list fprintf_call;
  out_eeg : list fprintf_call;
  std_out : list fprintf_call
}.

(** The zero-initialised globals, with nothing written yet. *)
Definition parser_init : state :=
  State 0 0 0 0 0 (replicate 18 0) 0 [] [] [].

(** The names the specification gives to the values of [Phase]. *)
Definition AwaitMagic1 : Z := 0.
Definition AwaitMagic2 : Z := 1.
Definition CollectingPayload : Z := 2.
Definition AwaitCrcHigh : Z := 3.
Definition AwaitCrcLow : Z := 4.

(** [short data1[18]]: reads and writes are defined for indices 0..17. *)
Definition data1_get (d : list Z) (i : Z) : option Z :=
  if (0 <=? i) && (i <? 18) then d !! Z.to_nat i else None.

Definition data1_set (d : list Z) (i : Z) (v : Z) : option (list Z) :=
  if (0 <=? i) && (i <? 18) && (Z.to_nat i <? length d)%nat
  then Some (<[Z.to_nat i := v]> d) else None.

(** The [fprintf_s] calls of case 4, by the values they are given: the two
    calls that make one GS record, the call that makes the EEG record, and
    the report of a checksum that does not agree. *)
Definition gs_calls (p w3 w16 : Z) : list fprintf_call :=
  [Fprintf "%d, %d, %d " [ArgInt p; ArgInt w3; ArgInt w16]; Fprintf nl []].

Definition eeg_call (p w0 w9 : Z) : fprintf_call :=
  Fprintf ("%d, %d, %f, %08X" +:+ nl) [ArgInt p; ArgInt w0; ArgScaled w0; ArgInt w9].

Definition error_call (p : Z) : fprintf_call :=
  Fprintf ("Error packet %d" +:+ nl) [ArgInt p].

(** ** The parser

    One iteration of the [for] loop of [parser]: the [switch] on [Phase]
    for the byte [b = buffer[i]].  A value of [Phase] outside 0..4 matches
    no [case] and leaves everything as it is. *)
Definition parser_byte (s : state) (b : byte) : option state :=
  let c := u8 b in
  if Phase s =? 0 then
    if c =? 0xAA then
      Some (State 1 0xAA (RdyFlg s) (LocalIndex s) (MsgCRC s) (data1 s)
                  (packet s) (out_gs s) (out_eeg s) (std_out s))
    else Some s
  else if Phase s =? 1 then
    if c =? 0x55 then
      Some (State 2 (to_ushort (Crc s + 0x55)) 0 0 (MsgCRC s) (data1 s)
                  (packet s) (out_gs s) (out_eeg s) (std_out s))
    else Some s
  else if Phase s =? 2 then
    let indx := Z.quot (LocalIndex s) 2 in
    d ← (if Z.rem (LocalIndex s) 2 =? 0
         then data1_set (data1 s) indx (to_short (Z.shiftl (Z.land c 0xff) 8))
         else v ← data1_get (data1 s) indx;
              data1_set (data1 s) indx (to_short (Z.lor v c)));
    let li := to_ushort (LocalIndex s + 1) in
    let crc := to_ushort (Crc s + c) in
    Some (State (if li =? 36 then 3 else 2) crc (RdyFlg s) li (MsgCRC s) d
                (packet s) (out_gs s) (out_eeg s) (std_out s))
  else if Phase s =? 3 then
    Some (State 4 (Crc s) (RdyFlg s) (LocalIndex s)
                (to_ushort (Z.shiftl (Z.land c 0xff) 8)) (data1 s)
                (packet s) (out_gs s) (out_eeg s) (std_out s))
  else if Phase s =? 4 then
    let m := to_ushort (MsgCRC s + c) in
    if m =? Crc s then
      let p := to_ushort (packet s + 1) in
      w16 ← data1_get (data1 s) 16;
      gs ← (if negb (w16 =? 255)
            then w3 ← data1_get (data1 s) 3;
                 Some (out_gs s ++ gs_calls p w3 w16)
            else Some (out_gs s));
      w0 ← data1_get (data1 s) 0;
      w9 ← data1_get (data1 s) 9;
      Some (State 0 (Crc s) 1 (LocalIndex s) m (data1 s) p gs
                  (out_eeg s ++ [eeg_call p w0 w9])
                  (std_out s))
    else
      Some (State 0 (Crc s) (RdyFlg s) (LocalIndex s) m (data1 s)
                  (packet s) (out_gs s) (out_eeg s)
                  (std_out s ++ [error_call (packet s)]))
  else Some s.

(** [for (i = 0; i < size; i++)] over [buffer]. *)
Fixpoint parser_loop (n : nat) (i : Z) (buffer : list byte) (s : state) : option state :=
  match n with
  | O => Some s
  | S n' =>
      b ← buffer !! Z.to_nat i;
      s' ← parser_byte s b;
      parser_loop n' (i + 1) buffer s'
  end.

Definition parser (size : Z) (buffer : list byte) (s : state) : option state :=
  parser_loop (Z.to_nat size) 0 buffer s.

(** The same loop as a fold over the bytes consumed. *)
Fixpoint feed (s : state) (bs : list byte) : option state :=
  match bs with
  | [] => Some s
  | b :: bs' => s' ← parser_byte s b; feed s' bs'
  end.

(** Whether the byte [b] met in state [s] closes a frame whose checksum
    agrees, i.e. takes the branch [MsgCRC == Crc]. *)
Definition validates (s : state) (b : byte) : bool :=
  (Phase s =? 4) && (to_ushort (MsgCRC s + u8 b) =? Crc s).

(** The packets validated while [bs] is consumed from [s], in order: the
    incremented packet counter and the contents of [data1] at each
    validation. *)
Fixpoint validated (s : state) (bs : list byte) : list (Z * list Z) :=
  match bs with
  | [] => []
  | b :: bs' =>
      match parser_byte s b with
      | Some s' =>
          (if validates s b then [(to_ushort (packet s + 1), data1 s)] else [])
            ++ validated s' bs'
      | None => []
      end
  end.

(** Word [i] of a packet. *)
Definition word (d : list Z) (i : nat) : Z := d !!! i.

(** What case 4 hands to the two streams for one validated packet. *)
Definition gs_of (v : Z * list Z) : list fprintf_call :=
  if word v.2 16 =? 255 then [] else gs_calls v.1 (word v.2 3) (word v.2 16).

Definition eeg_of (v : Z * list Z) : fprintf_call :=
  eeg_call v.1 (word v.2 0) (word v.2 9).

(** A device-to-host frame: magic prefix, payload, two checksum bytes. *)
Definition frame (p : list byte) (c1 c2 : byte) : list byte :=
  xaa :: x55 :: p ++ [c1; c2].

(** The received checksum word as the specification assembles it. *)
Definition checksum_word (c1 c2 : byte) : Z := Z.shiftl (u8 c1) 8 + u8 c2.

(** The states in which every access of the next iteration is inside
    [data1]: eighteen words, and an offset inside the payload while
    collecting. *)
Definition wf (s : state) : Prop :=
  length (data1 s) = 18%nat /\ (Phase s = 2 -> 0 <= LocalIndex s < 36).

(** ** The record formats

    The text of the records as the specification gives them
    ([spec_eeg_record], [spec_gs_record]) and the text of the EEG record
    with the separators of the format string of the source
    ([eeg_record]). *)
Definition spec_eeg_record (fmt_f : Z -> string) (p w0 w9 : Z) : string :=
  dec p +:+ "," +:+ dec w0 +:+ "," +:+ fmt_f w0 +:+ "," +:+ hex8 w9 +:+ nl.

Definition eeg_record (fmt_f : Z -> string) (p w0 w9 : Z) : string :=
  dec p +:+ ", " +:+ dec w0 +:+ ", " +:+ fmt_f w0 +:+ ", " +:+ hex8 w9 +:+ nl.

Definition spec_gs_record (p w3 w16 : Z) : string :=
  dec p +:+ ", " +:+ dec w3 +:+ ", " +:+ dec w16 +:+ " " +:+ nl.

(** The GS stream the specification asks for, given the validated packets:
    one record for each whose word 16 is not 255. *)
Fixpoint spec_gs_text (vs : list (Z * list Z)) : string :=
  match vs with
  | [] => EmptyString
  | v :: vs' =>
      (if word v.2 16 =? 255 then EmptyString
       else spec_gs_record v.1 (word v.2 3) (word v.2 16)) +:+ spec_gs_text vs'
  end.

Definition gs_packets (vs : list (Z * list Z)) : list (Z * list Z) :=
  filter (fun v => word v.2 16 <> 255) vs.

(** Sum of the byte values, in the integers. *)
Definition byte_sum (bs : list byte) : Z := foldr (fun b acc => u8 b + acc) 0 bs.

(** The signed 16-bit big-endian words of a payload. *)
Fixpoint be_words (p : list byte) : list Z :=
  match p with
  | h :: l :: p' => to_short (256 * u8 h + u8 l) :: be_words p'
  | _ => []
  end.

(** ** The command encoder *)

(** Modelled from the spec: the transport adapter's write operation
    ([Serial::write], whose class is not among the sources) takes the
    buffer whole; the transport is the log of the buffers written. *)
Definition serial_write (buf : list Z) (serial : list (list Z)) : list (list Z) :=
  serial ++ [buf].

(** [unsigned char cmd[8]] is a list of eight bytes written by index; every
    entry is assigned before it is read or sent, so the contents the array
    starts with do not matter and are taken as zero. *)
Definition setParam (CommandType CommandOpt : byte) (serial : list (list Z)) : list (list Z) :=
  let cmd : list Z := replicate 8 0 in
  let CRC := 0 in
  let cmd := <[0%nat := to_uchar 0xAA]> cmd in
  let cmd := <[1%nat := to_uchar 0x55]> cmd in
  let cmd := <[2%nat := to_uchar 0x0]> cmd in
  let cmd := <[3%nat := to_uchar (Z.lor (Z.shiftl (u8 CommandType) 4) (u8 CommandOpt))]> cmd in
  let cmd := <[4%nat := to_uchar 0x0]> cmd in
  let cmd := <[5%nat := to_uchar 0x0]> cmd in
  let CRC := to_uchar (cmd !!! 0%nat + cmd !!! 1%nat + cmd !!! 2%nat +
                       cmd !!! 3%nat + cmd !!! 4%nat + cmd !!! 5%nat) in
  let cmd := <[6%nat := CRC]> cmd in
  let cmd := <[7%nat := to_uchar 0x3]> cmd in
  serial_write cmd serial.

(** Scenario 1 of the specification: 36 payload bytes 0x01, checksum 0x0123. *)
Definition happy_frame : list byte := frame (replicate 36 x01) x01 x23.

(** Scenario 3: the same frame with its final byte flipped. *)
Definition corrupted_frame : list byte := frame (replicate 36 x01) x01 xdc.

(** The same frame with its second magic byte damaged. *)
Definition bad_magic_frame : list byte :=
  xaa :: x56 :: replicate 36 x01 ++ [x01; x23].

(** A parser that has just consumed 0xAA. *)
Definition after_magic1 : state :=
  State 1 0xAA 0 0 0 (replicate 18 0) 0 [] [] [].

(** A parser about to collect the first payload byte. *)
Definition after_magic2 : state :=
  State 2 0xFF 0 0 0 (replicate 18 0) 0 [] [] [].

(** ** Successive calls and the collection loop of [main] *)

(** [parser] called once per chunk, the globals carried from call to call. *)
Fixpoint parser_chunks (chunks : list (list byte)) (s : state) : option state :=
  match chunks with
  | [] => Some s
  | c :: chunks' => s' ← parser (Z.of_nat (length c)) c s; parser_chunks chunks' s'
  end.

(** Conversion to [int] (32 bits). *)
Definition to_int (z : Z) : Z := (z + 2147483648) mod 4294967296 - 2147483648.

(** Modelled from the spec: what the surroundings answer in one iteration of
    the collection loop.  [GetTickCount] (a system call) returns the
    milliseconds [tick]; [Serial::read(buffer, 1000, false)] (whose class is
    not among the sources) puts the bytes [chunk], between 0 and 1000 of
    them, at the start of [buffer] and returns their number. *)
Record poll := Poll { tick : Z; chunk : list byte }.

Definition serial_read (c buffer : list byte) : option (Z * list byte) :=
  if (length c <=? 1000)%nat && (length c <=? length buffer)%nat
  then Some (Z.of_nat (length c), c ++ drop (length c) buffer)
  else None.

(** The [while (true)] loop of [main] over the answers [polls], with [t1]
    the tick taken before the loop and [buffer] the 1000 bytes of [main].
    The result says whether the loop has left through [break]; with the
    answers used up it is still running. *)
Fixpoint collect_loop (t1 : Z) (polls : list poll) (buffer : list byte) (s : state)
  : option (state * bool) :=
  match polls with
  | [] => Some (s, false)
  | q :: polls' =>
      let delta := to_int (tick q - t1) in
      r ← serial_read (chunk q) buffer;
      let size := r.1 in
      let buffer' := r.2 in
      if negb (size =? 0) then
        s' ← (if delta >? 10000 then parser size buffer' s else Some s);
        if packet s' >? 160 * 60 * 2 then Some (s', true)
        else collect_loop t1 polls' buffer' s'
      else collect_loop t1 polls' buffer' s
  end.

(** ** Measures used in the further properties *)

(** How many bytes of a frame the parser has behind it. *)
Definition frame_pos (s : state) : Z :=
  if Phase s =? 1 then 1
  else if Phase s =? 2 then 2 + LocalIndex s
  else if Phase s =? 3 then 38
  else if Phase s =? 4 then 39
  else 0.

(** A frame by its parts, and whether its checksum agrees. *)
Definition frame_of (f : list byte * byte * byte) : list byte :=
  frame f.1.1 f.1.2 f.2.

Definition frame_ok (f : list byte * byte * byte) : bool :=
  checksum_word f.1.2 f.2 =? byte_sum (xaa :: x55 :: f.1.1) mod 65536.

(** The values a [short] word and an [unsigned short] field can hold. *)
Definition in_short (w : Z) : Prop := -32768 <= w < 32768.
Definition in_ushort (z : Z) : Prop := 0 <= z < 65536.

(** What holds of the integer fields in every state the parser reaches. *)
Definition ranges_ok (s : state) : Prop :=
  0 <= Phase s <= 4 /\ 0 <= Crc s <= 9435 /\
  (Phase s = 1 -> Crc s = 0xAA) /\
  (Phase s = 2 -> 255 <= Crc s <= 255 + 255 * LocalIndex s) /\
  in_ushort (MsgCRC s) /\ in_ushort (packet s) /\
  (RdyFlg s = 0 \/ RdyFlg s = 1) /\ Forall in_short (data1 s).

(** ** The microvolt field: [((float)data1[0])*0.076] under [%f]

    Binary floating point follows the specification of IEEE 754 arithmetic
    of the standard library ([spec_float]: sign, mantissa, exponent), with
    rounding to nearest, ties to even. *)

(** [(float)w] for a [short] [w]: the nearest binary32 number. *)
Definition float_of_short (w : Z) : spec_float := binary_normalize 24 128 w 0 false.

(** A [float] operand meeting a [double] is converted to [double]; the value
    is kept. *)
Definition double_of_float (x : spec_float) : spec_float :=
  match x with
  | S754_finite s m e => binary_normalize 53 1024 (cond_Zopp s (Zpos m)) e s
  | _ => x
  end.

(** The literal [0.076]: the binary64 number nearest to 76/1000, which is
    5476377146882523 * 2^-56 (bit pattern 3FB374BC6A7EF9DB). *)
Definition double_0_076 : spec_float := S754_finite false 5476377146882523 (-56).

(** [((float)w)*0.076]: the binary64 product. *)
Definition scaled_sample (w : Z) : spec_float :=
  SFmul 53 1024 (double_of_float (float_of_short w)) double_0_076.

(** The magnitude [m * 2^e] in millionths, rounded to the nearest whole
    number.  A value half way between two is rounded to the even one with
    [ties_even] (the rounding of the arithmetic) and away from zero
    without (C libraries differ here). *)
Definition millionths (ties_even : bool) (m : positive) (e : Z) : Z :=
  let n := Zpos m * 1000000 in
  if 0 <=? e then n * 2 ^ e
  else
    let d := 2 ^ (- e) in
    let q := n / d in
    let r := n mod d in
    if 2 * r <? d then q
    else if d <? 2 * r then q + 1
    else if ties_even && Z.even q then q else q + 1.

Definition digit (d : Z) : ascii := ascii_of_nat (Z.to_nat (48 + d)).

(** The last [n] decimal digits of [v], put before [acc]. *)
Fixpoint decimals (n : nat) (v : Z) (acc : string) : string :=
  match n with
  | O => acc
  | S n' => decimals n' (v / 10) (String (digit (v mod 10)) acc)
  end.

(** [%f] of a [double]: the sign, the integer part, a point and six digits. *)
Definition printf_f (ties_even : bool) (x : spec_float) : string :=
  match x with
  | S754_zero s => (if s then "-" else "") +:+ "0.000000"
  | S754_finite s m e =>
      let n := millionths ties_even m e in
      (if s then "-" else "") +:+ dec (n / 1000000) +:+ "." +:+
      decimals 6 (n mod 1000000) EmptyString
  | S754_infinity s => if s then "-inf" else "inf"
  | S754_nan => "nan"
  end.

(** What the [%f] of the EEG call prints for word [w]. *)
Definition printf_scaled (ties_even : bool) (w : Z) : string :=
  printf_f ties_even (scaled_sample w).

(** The number [w * 0.076] of the specification, as a decimal with six
    digits after the point. *)
Definition microvolts (w : Z) : string :=
  let a := Z.abs w * 76 in
  (if w <? 0 then "-" else "") +:+ dec (a / 1000) +:+ "." +:+
  decimals 6 (a mod 1000 * 1000) EmptyString.

(** The characters that part the fields and the records: comma, space and
    newline. *)
Definition separator (c : ascii) : Prop :=
  c = ","%char \/ c = " "%char \/ c = "010"%char.

(** Occurrences of a character in a text. *)
Fixpoint count_char (c : ascii) (t : string) : nat :=
  match t with
  | EmptyString => O
  | String x t' => if Ascii.eqb x c then S (count_char c t') else count_char c t'
  end.

(** [f] on every integer from [base * 2^bits] up to, not including,
    [(base + 1) * 2^bits]. *)
Fixpoint all_from (bits : nat) (base : Z) (f : Z -> bool) : bool :=
  match bits with
  | O => f base
  | S b => all_from b (2 * base) f && all_from b (2 * base + 1) f
  end.

(** A check of the product for word [w], by shifts: it has the sign of [w],
    and in millionths it is not half way between two whole numbers and
    rounds to [|w| * 76000]. *)
Definition sample_ok (w : Z) : bool :=
  match scaled_sample w with
  | S754_zero s => (w =? 0) && negb s
  | S754_finite s m e =>
      Bool.eqb s (w <? 0) && (e <? 0) &&
      let n := Zpos m * 1000000 in
      let k := - e in
      let q := Z.shiftr n k in
      let r := Z.land n (Z.ones k) in
      let d := Z.shiftl 1 k in
      negb (2 * r =? d) && ((if 2 * r <? d then q else q + 1) =? Z.abs w * 76 * 1000)
  | _ => false
  end.

(** ** First runs *)

Example dec_examples :
  dec 0 = "0"%string /\ dec 257 = "257"%string /\ dec (-32768) = "-32768"%string.
Proof. repeat split. Qed.

Example hex8_examples :
  hex8 257 = "00000101"%string /\ hex8 (-32768) = "FFFF8000"%string /\
  hex8 43981 = "0000ABCD"%string.
Proof. repeat split. Qed.

Example happy_path :
  parser 40 happy_frame parser_init =
    Some (State 0 0x123 1 36 0x123 (replicate 18 257) 1
            (gs_calls 1 257 257) [eeg_call 1 257 257] []).
Proof. vm_compute. reflexivity. Qed.

(** Scenarios 2 and 5: bytes before the frame, and a 0xAA that is not
    followed by 0x55, leave the one record of the frame. *)
Example garbage_prefix :
  parser 42 ([xff; xff] ++ happy_frame) parser_init = parser 40 happy_frame parser_init.
Proof. vm_compute. reflexivity. Qed.

Example false_magic :
  parser 42 ([xaa; x56] ++ happy_frame) parser_init = parser 40 happy_frame parser_init.
Proof. vm_compute. reflexivity. Qed.

(** Scenario 4: word 16 = 255 keeps the GS stream as it is. *)
Example histogram_suppressed :
  out_gs <$> parser 40 (frame (replicate 32 x00 ++ [x00; xff; x00; x00]) x01 xfe) parser_init
    = Some [] /\
  out_eeg <$> parser 40 (frame (replicate 32 x00 ++ [x00; xff; x00; x00]) x01 xfe) parser_init
    = Some [eeg_call 1 0 0].
Proof. split; vm_compute; reflexivity. Qed.

Example setParam_notch : setParam x01 x01 [] = [[0xAA; 0x55; 0; 0x11; 0; 0; 0x10; 3]].
Proof. reflexivity. Qed.

(** ** Arithmetic of the conversions *)

Lemma u8_range (b : byte) : 0 <= u8 b < 256.
Proof.
  unfold u8. pose proof (Byte.to_N_bounded b). lia.
Qed.

Lemma to_ushort_small (z : Z) : 0 <= z < 65536 -> to_ushort z = z.
Proof. intros H. unfold to_ushort. apply Z.mod_small. exact H. Qed.

Lemma to_ushort_add_l (a b : Z) : to_ushort (to_ushort a + b) = to_ushort (a + b).
Proof. unfold to_ushort. apply Zplus_mod_idemp_l. Qed.

Lemma to_short_small (z : Z) : -32768 <= z < 32768 -> to_short z = z.
Proof. intros H. unfold to_short. rewrite Z.mod_small; lia. Qed.

Lemma land_byte (c : Z) : 0 <= c < 256 -> Z.land c 0xff = c.
Proof.
  intros H. change 0xff with (Z.ones 8). rewrite Z.land_ones by lia.
  apply Z.mod_small. simpl. lia.
Qed.

Lemma shiftl_byte (c : Z) : 0 <= c < 256 -> Z.shiftl (Z.land c 0xff) 8 = 256 * c.
Proof.
  intros H. rewrite land_byte by exact H. rewrite Z.shiftl_mul_pow2 by lia.
  change (2 ^ 8) with 256. lia.
Qed.

(** OR-ing into a word whose low [n] bits are clear adds. *)
Lemma lor_low_bits (n k c : Z) :
  0 <= n -> 0 <= c < 2 ^ n -> Z.lor (k * 2 ^ n) c = k * 2 ^ n + c.
Proof.
  intros Hn H.
  assert (Hland : Z.land (k * 2 ^ n) c = 0).
  { apply Z.bits_inj'. intros i Hi. rewrite Z.land_spec, Z.bits_0.
    destruct (Z.lt_ge_cases i n) as [Hlt | Hge].
    - rewrite Z.mul_pow2_bits_low by lia. reflexivity.
    - replace (Z.testbit c i) with false; [apply andb_false_r |].
      symmetry. destruct (Z.eq_dec c 0) as [-> | Hc]; [apply Z.bits_0 |].
      apply Z.bits_above_log2; [lia |].
      apply Z.lt_le_trans with n; [| exact Hge].
      apply Z.log2_lt_pow2; lia. }
  rewrite Z.add_nocarry_lxor by exact Hland.
  symmetry. apply Z.lxor_lor. exact Hland.
Qed.

Lemma lor_low_byte (k c : Z) : 0 <= c < 256 -> Z.lor (256 * k) c = 256 * k + c.
Proof.
  intros H. replace (256 * k) with (k * 2 ^ 8) by (change (2 ^ 8) with 256; lia).
  apply lor_low_bits; [lia | exact H].
Qed.

Lemma to_short_high (c : Z) :
  0 <= c < 256 ->
  to_short (256 * c) = if c <? 128 then 256 * c else 256 * c - 65536.
Proof.
  intros H. unfold to_short. destruct (Z.ltb_spec c 128).
  - rewrite Z.mod_small; lia.
  - replace (256 * c + 32768) with (256 * c - 32768 + 1 * 65536) by lia.
    rewrite Z.mod_add by lia. rewrite Z.mod_small; lia.
Qed.

(** The two stores of one payload word yield its big-endian reading. *)
Lemma word_assembly (h l : Z) :
  0 <= h < 256 -> 0 <= l < 256 ->
  to_short (Z.lor (to_short (Z.shiftl (Z.land h 0xff) 8)) l) = to_short (256 * h + l).
Proof.
  intros Hh Hl. rewrite shiftl_byte by exact Hh. rewrite to_short_high by exact Hh.
  destruct (Z.ltb_spec h 128).
  - rewrite lor_low_byte by exact Hl. reflexivity.
  - replace (256 * h - 65536) with (256 * (h - 256)) by lia.
    rewrite lor_low_byte by exact Hl.
    rewrite !to_short_small by lia.
    unfold to_short.
    replace (256 * h + l + 32768) with (256 * (h - 256) + l + 32768 + 1 * 65536) by lia.
    rewrite Z.mod_add by lia. rewrite Z.mod_small; lia.
Qed.

(** ** The loop and the fold *)

Lemma parser_loop_feed (bs pre : list byte) (s : state) :
  parser_loop (length bs) (Z.of_nat (length pre)) (pre ++ bs) s = feed s bs.
Proof.
  revert pre s. induction bs as [| b bs IH]; intros pre s; [reflexivity |].
  cbn [length parser_loop feed].
  rewrite Nat2Z.id, list_lookup_middle by reflexivity. cbn [mbind option_bind].
  destruct (parser_byte s b) as [s' |]; [| reflexivity]. cbn [mbind option_bind].
  specialize (IH (pre ++ [b]) s').
  rewrite <- app_assoc, length_app in IH. cbn [length app] in IH.
  replace (Z.of_nat (length pre) + 1) with (Z.of_nat (length pre + 1)) by lia.
  exact IH.
Qed.

(** Called on a whole buffer, [parser] is [feed]. *)
Lemma parser_feed (bs : list byte) (s : state) :
  parser (Z.of_nat (length bs)) bs s = feed s bs.
Proof.
  unfold parser. rewrite Nat2Z.id. apply (parser_loop_feed bs [] s).
Qed.

Lemma parser_sized (size : Z) (bs : list byte) (s : state) :
  size = Z.of_nat (length bs) -> parser size bs s = feed s bs.
Proof. intros ->. apply parser_feed. Qed.

Lemma feed_app (s : state) (xs ys : list byte) :
  feed s (xs ++ ys) = s' ← feed s xs; feed s' ys.
Proof.
  revert s. induction xs as [| x xs IH]; intros s; [reflexivity |].
  cbn [app feed]. destruct (parser_byte s x) as [s' |]; [| reflexivity].
  cbn [mbind option_bind]. apply IH.
Qed.

(** ** The five cases of the switch *)

Lemma case0_magic (s : state) :
  Phase s = 0 ->
  parser_byte s xaa =
    Some (State 1 0xAA (RdyFlg s) (LocalIndex s) (MsgCRC s) (data1 s)
                (packet s) (out_gs s) (out_eeg s) (std_out s)).
Proof. intros H. unfold parser_byte. rewrite H. reflexivity. Qed.

Lemma case0_other (s : state) (b : byte) :
  Phase s = 0 -> u8 b <> 0xAA -> parser_byte s b = Some s.
Proof.
  intros H Hb. unfold parser_byte. rewrite H. cbn [Z.eqb].
  destruct (Z.eqb_spec (u8 b) 0xAA); [contradiction | reflexivity].
Qed.

Lemma case1_magic (s : state) :
  Phase s = 1 ->
  parser_byte s x55 =
    Some (State 2 (to_ushort (Crc s + 0x55)) 0 0 (MsgCRC s) (data1 s)
                (packet s) (out_gs s) (out_eeg s) (std_out s)).
Proof. intros H. unfold parser_byte. rewrite H. reflexivity. Qed.

Lemma case1_other (s : state) (b : byte) :
  Phase s = 1 -> u8 b <> 0x55 -> parser_byte s b = Some s.
Proof.
  intros H Hb. unfold parser_byte. rewrite H. cbn [Z.eqb Pos.eqb].
  destruct (Z.eqb_spec (u8 b) 0x55); [contradiction | reflexivity].
Qed.

Lemma data1_set_ok (d : list Z) (i v : Z) :
  0 <= i < 18 -> length d = 18%nat ->
  data1_set d i v = Some (<[Z.to_nat i := v]> d).
Proof.
  intros Hi Hd. unfold data1_set.
  replace (0 <=? i) with true by (symmetry; apply Z.leb_le; lia).
  replace (i <? 18) with true by (symmetry; apply Z.ltb_lt; lia).
  replace (Z.to_nat i <? length d)%nat with true
    by (symmetry; apply Nat.ltb_lt; lia).
  reflexivity.
Qed.

Lemma data1_get_ok (d : list Z) (i : Z) :
  0 <= i < 18 -> data1_get d i = d !! Z.to_nat i.
Proof.
  intros Hi. unfold data1_get.
  replace (0 <=? i) with true by (symmetry; apply Z.leb_le; lia).
  replace (i <? 18) with true by (symmetry; apply Z.ltb_lt; lia).
  reflexivity.
Qed.

(** Even offset: the byte becomes the high half of word [w]. *)
Lemma case2_even (s : state) (b : byte) (w : Z) :
  Phase s = 2 -> LocalIndex s = 2 * w -> 0 <= w < 18 -> length (data1 s) = 18%nat ->
  parser_byte s b =
    Some (State 2 (to_ushort (Crc s + u8 b)) (RdyFlg s) (2 * w + 1) (MsgCRC s)
                (<[Z.to_nat w := to_short (Z.shiftl (Z.land (u8 b) 0xff) 8)]> (data1 s))
                (packet s) (out_gs s) (out_eeg s) (std_out s)).
Proof.
  intros HP HL Hw Hd. unfold parser_byte. rewrite HP, HL. cbn [Z.eqb Pos.eqb].
  replace (Z.quot (2 * w) 2) with w by (apply Z.quot_unique with 0; lia).
  replace (Z.rem (2 * w) 2) with 0 by (apply Z.rem_unique with w; lia).
  cbn [Z.eqb]. rewrite data1_set_ok by assumption. cbn [mbind option_bind].
  rewrite to_ushort_small by lia.
  destruct (Z.eqb_spec (2 * w + 1) 36); [lia | reflexivity].
Qed.

(** Odd offset: the byte is OR-ed into word [w]; offset 35 closes the payload. *)
Lemma case2_odd (s : state) (b : byte) (w v : Z) :
  Phase s = 2 -> LocalIndex s = 2 * w + 1 -> 0 <= w < 18 ->
  length (data1 s) = 18%nat -> data1 s !! Z.to_nat w = Some v ->
  parser_byte s b =
    Some (State (if w =? 17 then 3 else 2) (to_ushort (Crc s + u8 b)) (RdyFlg s)
                (2 * w + 2) (MsgCRC s)
                (<[Z.to_nat w := to_short (Z.lor v (u8 b))]> (data1 s))
                (packet s) (out_gs s) (out_eeg s) (std_out s)).
Proof.
  intros HP HL Hw Hd Hv. unfold parser_byte. rewrite HP, HL. cbn [Z.eqb Pos.eqb].
  replace (Z.quot (2 * w + 1) 2) with w by (apply Z.quot_unique with 1; lia).
  replace (Z.rem (2 * w + 1) 2) with 1 by (apply Z.rem_unique with w; lia).
  cbn [Z.eqb]. rewrite data1_get_ok, Hv by assumption. cbn [mbind option_bind].
  rewrite data1_set_ok by assumption. cbn [mbind option_bind].
  replace (2 * w + 1 + 1) with (2 * w + 2) by lia.
  rewrite to_ushort_small by lia.
  destruct (Z.eqb_spec (2 * w + 2) 36), (Z.eqb_spec w 17); try lia; reflexivity.
Qed.

Lemma case3 (s : state) (b : byte) :
  Phase s = 3 ->
  parser_byte s b =
    Some (State 4 (Crc s) (RdyFlg s) (LocalIndex s) (256 * u8 b) (data1 s)
                (packet s) (out_gs s) (out_eeg s) (std_out s)).
Proof.
  intros H. unfold parser_byte. rewrite H. cbn [Z.eqb Pos.eqb].
  pose proof (u8_range b).
  rewrite shiftl_byte, to_ushort_small by lia. reflexivity.
Qed.

Lemma case4_valid (s : state) (b : byte) (w0 w3 w9 w16 : Z) :
  Phase s = 4 -> to_ushort (MsgCRC s + u8 b) = Crc s ->
  data1 s !! 0%nat = Some w0 -> data1 s !! 3%nat = Some w3 ->
  data1 s !! 9%nat = Some w9 -> data1 s !! 16%nat = Some w16 ->
  parser_byte s b =
    Some (State 0 (Crc s) 1 (LocalIndex s) (Crc s) (data1 s) (to_ushort (packet s + 1))
                (if w16 =? 255 then out_gs s
                 else out_gs s ++ gs_calls (to_ushort (packet s + 1)) w3 w16)
                (out_eeg s ++ [eeg_call (to_ushort (packet s + 1)) w0 w9])
                (std_out s)).
Proof.
  intros HP Hc H0 H3 H9 H16. unfold parser_byte. rewrite HP. cbn [Z.eqb Pos.eqb].
  rewrite Hc, Z.eqb_refl.
  rewrite !data1_get_ok by lia.
  change (Z.to_nat 16) with 16%nat. change (Z.to_nat 3) with 3%nat.
  change (Z.to_nat 0) with 0%nat. change (Z.to_nat 9) with 9%nat.
  rewrite H0, H3, H9, H16. cbn [mbind option_bind].
  destruct (w16 =? 255); reflexivity.
Qed.

Lemma case4_invalid (s : state) (b : byte) :
  Phase s = 4 -> to_ushort (MsgCRC s + u8 b) <> Crc s ->
  parser_byte s b =
    Some (State 0 (Crc s) (RdyFlg s) (LocalIndex s) (to_ushort (MsgCRC s + u8 b)) (data1 s)
                (packet s) (out_gs s) (out_eeg s)
                (std_out s ++ [error_call (packet s)])).
Proof.
  intros HP Hc. unfold parser_byte. rewrite HP. cbn [Z.eqb Pos.eqb].
  destruct (Z.eqb_spec (to_ushort (MsgCRC s + u8 b)) (Crc s)); [contradiction | reflexivity].
Qed.

(** ** Collecting the payload *)

Lemma byte_sum_cons (b : byte) (bs : list byte) : byte_sum (b :: bs) = u8 b + byte_sum bs.
Proof. reflexivity. Qed.

Lemma byte_sum_bounds (bs : list byte) : 0 <= byte_sum bs <= 255 * Z.of_nat (length bs).
Proof.
  induction bs as [| b bs IH]; [cbn; lia |].
  rewrite byte_sum_cons. cbn [length]. pose proof (u8_range b). lia.
Qed.

(** The two bytes of word [w]. *)
Lemma feed_word (s : state) (h l : byte) (w : Z) :
  Phase s = 2 -> LocalIndex s = 2 * w -> 0 <= w < 18 -> length (data1 s) = 18%nat ->
  feed s [h; l] =
    Some (State (if w =? 17 then 3 else 2) (to_ushort (Crc s + u8 h + u8 l)) (RdyFlg s)
                (2 * w + 2) (MsgCRC s)
                (<[Z.to_nat w := to_short (256 * u8 h + u8 l)]> (data1 s))
                (packet s) (out_gs s) (out_eeg s) (std_out s)).
Proof.
  intros HP HL Hw Hd. cbn [feed].
  rewrite (case2_even s h w) by assumption. cbn [mbind option_bind].
  erewrite (case2_odd _ l w); cbn [Phase LocalIndex data1]; try reflexivity; try assumption.
  - cbn [mbind option_bind Crc RdyFlg MsgCRC packet out_gs out_eeg std_out].
    rewrite list_insert_insert_eq, to_ushort_add_l.
    rewrite word_assembly by apply u8_range. reflexivity.
  - rewrite length_insert. exact Hd.
  - apply list_lookup_insert_eq. lia.
Qed.

Lemma pair_ind {A : Type} (P : list A -> Prop) :
  P [] -> (forall x, P [x]) -> (forall x y l, P l -> P (x :: y :: l)) -> forall l, P l.
Proof.
  intros Hnil Hone Hstep.
  assert (H : forall l, P l /\ forall x, P (x :: l)).
  { induction l as [| y l [IH1 IH2]]; split; auto. }
  intros l. apply H.
Qed.

(** [m] whole words collected from word index [n] on. *)
Lemma feed_words (p : list byte) :
  forall (n m : nat) (s : state),
    length p = (2 * m)%nat -> (0 < m)%nat -> (n + m <= 18)%nat ->
    Phase s = 2 -> LocalIndex s = 2 * Z.of_nat n -> length (data1 s) = 18%nat ->
    feed s p =
      Some (State (if (n + m =? 18)%nat then 3 else 2) (to_ushort (Crc s + byte_sum p))
                  (RdyFlg s) (2 * Z.of_nat (n + m)) (MsgCRC s)
                  (take n (data1 s) ++ be_words p ++ drop (n + m) (data1 s))
                  (packet s) (out_gs s) (out_eeg s) (std_out s)).
Proof.
  induction p as [| x | h l p IH] using pair_ind; intros n m s Hlen Hm Hnm HP HL Hd.
  - cbn [length] in Hlen. lia.
  - cbn [length] in Hlen. lia.
  - change (h :: l :: p) with ([h; l] ++ p). rewrite feed_app.
    rewrite (feed_word s h l (Z.of_nat n)) by (try assumption; lia).
    cbn [mbind option_bind]. rewrite Nat2Z.id.
    cbn [length] in Hlen.
    destruct m as [| [| m']]; [lia | |].
    + (* the last pair fed *)
      destruct p; [| cbn [length] in Hlen; lia].
      cbn [feed app be_words]. rewrite !byte_sum_cons. change (byte_sum []) with 0.
      rewrite (insert_take_drop (data1 s) n) by lia.
      replace (n + 1)%nat with (S n) by lia.
      replace (2 * Z.of_nat n + 2) with (2 * Z.of_nat (S n)) by lia.
      replace (Z.of_nat n =? 17) with (S n =? 18)%nat
        by (destruct (Nat.eqb_spec (S n) 18), (Z.eqb_spec (Z.of_nat n) 17); lia || reflexivity).
      replace (Crc s + (u8 h + (u8 l + 0))) with (Crc s + u8 h + u8 l) by lia.
      reflexivity.
    + replace (Z.of_nat n =? 17) with false by (symmetry; apply Z.eqb_neq; lia).
      rewrite (IH (S n) (S m')); cbn [Phase LocalIndex data1 Crc RdyFlg MsgCRC packet
                                          out_gs out_eeg std_out];
        try reflexivity; try lia.
      * rewrite to_ushort_add_l.
        rewrite (take_S_r _ n (to_short (256 * u8 h + u8 l)))
          by (apply list_lookup_insert_eq; lia).
        rewrite take_insert_ge by lia. rewrite drop_insert_lt by lia.
        replace (S n + S m')%nat with (n + S (S m'))%nat by lia.
        cbn [be_words app]. rewrite !byte_sum_cons, <- app_assoc. cbn [app].
        replace (Crc s + (u8 h + (u8 l + byte_sum p)))
          with (Crc s + u8 h + u8 l + byte_sum p) by lia.
        reflexivity.
      * rewrite length_insert. exact Hd.
Qed.

Lemma be_words_length (p : list byte) :
  forall m : nat, length p = (2 * m)%nat -> length (be_words p) = m.
Proof.
  induction p as [| x | h l p IH] using pair_ind; intros m Hm; cbn [length] in Hm.
  - cbn. lia.
  - lia.
  - cbn [be_words length]. destruct m as [| m]; [lia |]. rewrite (IH m); lia.
Qed.

(** ** A whole frame *)

Lemma checksum_word_eq (c1 c2 : byte) : checksum_word c1 c2 = 256 * u8 c1 + u8 c2.
Proof.
  unfold checksum_word. rewrite Z.shiftl_mul_pow2 by lia. change (2 ^ 8) with 256. lia.
Qed.

Lemma frame_sum (p : list byte) :
  length p = 36%nat ->
  byte_sum (xaa :: x55 :: p) mod 65536 = 0xAA + 0x55 + byte_sum p.
Proof.
  intros Hp. rewrite !byte_sum_cons. change (u8 xaa) with 0xAA. change (u8 x55) with 0x55.
  pose proof (byte_sum_bounds p). rewrite Z.mod_small; lia.
Qed.

(** Everything up to the last byte: the parser sits in case 4 with the sum
    of the 38 bytes in [Crc] and the first checksum byte in [MsgCRC]. *)
Lemma feed_frame (s : state) (p : list byte) (c1 c2 : byte) :
  Phase s = 0 -> length (data1 s) = 18%nat -> length p = 36%nat ->
  feed s (frame p c1 c2) =
    parser_byte (State 4 (0xAA + 0x55 + byte_sum p) 0 36 (256 * u8 c1) (be_words p)
                       (packet s) (out_gs s) (out_eeg s) (std_out s)) c2.
Proof.
  intros HP Hd Hp. unfold frame. cbn [feed].
  rewrite case0_magic by exact HP. cbn [mbind option_bind].
  rewrite case1_magic by reflexivity. cbn [mbind option_bind].
  cbn [Crc RdyFlg LocalIndex MsgCRC data1 packet out_gs out_eeg std_out].
  rewrite feed_app.
  rewrite (feed_words p 0 18); cbn [Phase LocalIndex data1]; try reflexivity; try lia;
    try assumption.
  cbn [mbind option_bind Crc RdyFlg LocalIndex MsgCRC data1 packet out_gs out_eeg std_out].
  rewrite take_0, drop_ge, app_nil_r by lia. cbn [app feed Nat.eqb Nat.add].
  rewrite case3 by reflexivity. cbn [mbind option_bind].
  cbn [Crc RdyFlg LocalIndex MsgCRC data1 packet out_gs out_eeg std_out].
  destruct (parser_byte _ c2) eqn:E; cbn [mbind option_bind].
  - rewrite <- E. f_equal. f_equal.
    pose proof (byte_sum_bounds p). change (to_ushort (170 + 85)) with 255.
    rewrite to_ushort_small; lia.
  - rewrite <- E. f_equal. f_equal.
    pose proof (byte_sum_bounds p). change (to_ushort (170 + 85)) with 255.
    rewrite to_ushort_small; lia.
Qed.

Lemma lookup_word (d : list Z) (i : nat) :
  (i < length d)%nat -> d !! i = Some (word d i).
Proof. intros H. unfold word. apply list_lookup_lookup_total_lt. exact H. Qed.

Lemma frame_valid (s : state) (p : list byte) (c1 c2 : byte) :
  Phase s = 0 -> length (data1 s) = 18%nat -> length p = 36%nat ->
  checksum_word c1 c2 = byte_sum (xaa :: x55 :: p) mod 65536 ->
  feed s (frame p c1 c2) =
    Some (State 0 (0xAA + 0x55 + byte_sum p) 1 36 (0xAA + 0x55 + byte_sum p) (be_words p)
                (to_ushort (packet s + 1))
                (out_gs s ++ gs_of (to_ushort (packet s + 1), be_words p))
                (out_eeg s ++ [eeg_of (to_ushort (packet s + 1), be_words p)])
                (std_out s)).
Proof.
  intros HP Hd Hp Hc. rewrite feed_frame by assumption.
  rewrite frame_sum, checksum_word_eq in Hc by exact Hp.
  pose proof (be_words_length p 18 ltac:(lia)) as Hw.
  pose proof (u8_range c1). pose proof (u8_range c2).
  erewrite case4_valid; cbn [Phase Crc MsgCRC data1 packet out_gs out_eeg std_out LocalIndex];
    try reflexivity; try (apply lookup_word; lia).
  - unfold gs_of, eeg_of. cbn [fst snd].
    destruct (word (be_words p) 16 =? 255); [rewrite app_nil_r |]; reflexivity.
  - rewrite to_ushort_small; lia.
Qed.

Lemma frame_invalid (s : state) (p : list byte) (c1 c2 : byte) :
  Phase s = 0 -> length (data1 s) = 18%nat -> length p = 36%nat ->
  checksum_word c1 c2 <> byte_sum (xaa :: x55 :: p) mod 65536 ->
  feed s (frame p c1 c2) =
    Some (State 0 (0xAA + 0x55 + byte_sum p) 0 36 (checksum_word c1 c2) (be_words p)
                (packet s) (out_gs s) (out_eeg s)
                (std_out s ++ [error_call (packet s)])).
Proof.
  intros HP Hd Hp Hc. rewrite feed_frame by assumption.
  rewrite frame_sum in Hc by exact Hp. rewrite checksum_word_eq in *.
  pose proof (u8_range c1). pose proof (u8_range c2).
  rewrite case4_invalid; cbn [Phase Crc MsgCRC data1 packet out_gs out_eeg std_out LocalIndex
                              RdyFlg]; try reflexivity.
  - rewrite to_ushort_small by lia. reflexivity.
  - rewrite to_ushort_small; lia.
Qed.

Lemma frame_length (p : list byte) (c1 c2 : byte) :
  length p = 36%nat -> Z.of_nat (length (frame p c1 c2)) = 40.
Proof. intros Hp. unfold frame. cbn [length]. rewrite length_app, Hp. reflexivity. Qed.

(** [parser] called with the size of a whole frame. *)
Lemma parser_frame (s : state) (p : list byte) (c1 c2 : byte) :
  length p = 36%nat -> parser 40 (frame p c1 c2) s = feed s (frame p c1 c2).
Proof.
  intros Hp. rewrite <- (frame_length p c1 c2 Hp). apply parser_feed.
Qed.

Lemma u8_inj (a b : byte) : u8 a = u8 b -> a = b.
Proof.
  unfold u8. intros H. apply N2Z.inj in H.
  pose proof (Byte.of_to_N a) as Ha. rewrite H, Byte.of_to_N in Ha. congruence.
Qed.

Lemma feed_magic2_junk (t : state) (junk : list byte) :
  Phase t = 1 -> Forall (fun b => b <> x55) junk -> feed t junk = Some t.
Proof.
  intros HP Hj. induction Hj as [| b junk Hb _ IH]; [reflexivity |].
  cbn [feed]. rewrite case1_other; [exact IH | exact HP |].
  intros E. apply Hb. apply u8_inj. exact E.
Qed.

(** ** Every iteration is defined on well-formed states *)

Lemma case0_any (s : state) (b : byte) :
  Phase s = 0 ->
  parser_byte s b =
    Some (if u8 b =? 0xAA
          then State 1 0xAA (RdyFlg s) (LocalIndex s) (MsgCRC s) (data1 s)
                     (packet s) (out_gs s) (out_eeg s) (std_out s)
          else s).
Proof.
  intros H. unfold parser_byte. rewrite H. cbn [Z.eqb].
  destruct (u8 b =? 0xAA); reflexivity.
Qed.

Lemma case1_any (s : state) (b : byte) :
  Phase s = 1 ->
  parser_byte s b =
    Some (if u8 b =? 0x55
          then State 2 (to_ushort (Crc s + 0x55)) 0 0 (MsgCRC s) (data1 s)
                     (packet s) (out_gs s) (out_eeg s) (std_out s)
          else s).
Proof.
  intros H. unfold parser_byte. rewrite H. cbn [Z.eqb Pos.eqb].
  destruct (u8 b =? 0x55); reflexivity.
Qed.

Lemma case2_any (s : state) (b : byte) :
  Phase s = 2 -> 0 <= LocalIndex s < 36 -> length (data1 s) = 18%nat ->
  exists v,
    parser_byte s b =
      Some (State (if LocalIndex s + 1 =? 36 then 3 else 2) (to_ushort (Crc s + u8 b))
                  (RdyFlg s) (LocalIndex s + 1) (MsgCRC s)
                  (<[Z.to_nat (LocalIndex s / 2) := v]> (data1 s))
                  (packet s) (out_gs s) (out_eeg s) (std_out s)).
Proof.
  intros HP Ho Hd.
  destruct (Z.Even_or_Odd (LocalIndex s)) as [[k Hk] | [k Hk]].
  - assert (Hw : LocalIndex s / 2 = k) by (symmetry; apply Z.div_unique with 0; lia).
    rewrite Hw, (case2_even s b k) by lia. eexists. rewrite Hk.
    destruct (Z.eqb_spec (2 * k + 1) 36); [lia | reflexivity].
  - assert (Hw : LocalIndex s / 2 = k) by (symmetry; apply Z.div_unique with 1; lia).
    rewrite Hw.
    rewrite (case2_odd s b k (word (data1 s) (Z.to_nat k))); try lia.
    + eexists. rewrite Hk. replace (2 * k + 1 + 1) with (2 * k + 2) by lia.
      destruct (Z.eqb_spec k 17), (Z.eqb_spec (2 * k + 2) 36); try lia; reflexivity.
    + apply lookup_word. lia.
Qed.

Lemma case4_any (s : state) (b : byte) :
  Phase s = 4 -> length (data1 s) = 18%nat ->
  parser_byte s b =
    Some (if validates s b
          then State 0 (Crc s) 1 (LocalIndex s) (Crc s) (data1 s) (to_ushort (packet s + 1))
                     (out_gs s ++ gs_of (to_ushort (packet s + 1), data1 s))
                     (out_eeg s ++ [eeg_of (to_ushort (packet s + 1), data1 s)])
                     (std_out s)
          else State 0 (Crc s) (RdyFlg s) (LocalIndex s) (to_ushort (MsgCRC s + u8 b))
                     (data1 s) (packet s) (out_gs s) (out_eeg s)
                     (std_out s ++ [error_call (packet s)])).
Proof.
  intros HP Hd. unfold validates. rewrite HP. cbn [Z.eqb Pos.eqb andb].
  destruct (Z.eqb_spec (to_ushort (MsgCRC s + u8 b)) (Crc s)) as [E | E].
  - erewrite case4_valid; try eassumption; try (apply lookup_word; lia).
    unfold gs_of, eeg_of. cbn [fst snd].
    destruct (word (data1 s) 16 =? 255); [rewrite app_nil_r |]; reflexivity.
  - apply case4_invalid; assumption.
Qed.

Lemma case_other (s : state) (b : byte) :
  Phase s <> 0 -> Phase s <> 1 -> Phase s <> 2 -> Phase s <> 3 -> Phase s <> 4 ->
  parser_byte s b = Some s.
Proof.
  intros H0 H1 H2 H3 H4. unfold parser_byte.
  destruct (Z.eqb_spec (Phase s) 0); [contradiction |].
  destruct (Z.eqb_spec (Phase s) 1); [contradiction |].
  destruct (Z.eqb_spec (Phase s) 2); [contradiction |].
  destruct (Z.eqb_spec (Phase s) 3); [contradiction |].
  destruct (Z.eqb_spec (Phase s) 4); [contradiction |].
  reflexivity.
Qed.

Lemma phase_cases (s : state) :
  Phase s = 0 \/ Phase s = 1 \/ Phase s = 2 \/ Phase s = 3 \/ Phase s = 4 \/
  (Phase s <> 0 /\ Phase s <> 1 /\ Phase s <> 2 /\ Phase s <> 3 /\ Phase s <> 4).
Proof. lia. Qed.

Lemma validates_false (s : state) (b : byte) : Phase s <> 4 -> validates s b = false.
Proof.
  intros H. unfold validates. destruct (Z.eqb_spec (Phase s) 4); [contradiction | reflexivity].
Qed.

(** One byte, from a well-formed state: the iteration is defined, the state
    stays well-formed, and the two streams grow exactly by what a validation
    hands them. *)
Lemma parser_byte_wf (s : state) (b : byte) :
  wf s ->
  exists s',
    parser_byte s b = Some s' /\ wf s' /\
    out_gs s' =
      out_gs s ++ (if validates s b then gs_of (to_ushort (packet s + 1), data1 s) else []) /\
    out_eeg s' =
      out_eeg s ++ (if validates s b then [eeg_of (to_ushort (packet s + 1), data1 s)] else []) /\
    (0 <= LocalIndex s <= 36 -> 0 <= LocalIndex s' <= 36).
Proof.
  intros [Hd Ho].
  destruct (phase_cases s) as [H0 | [H1 | [H2 | [H3 | [H4 | (H0 & H1 & H2 & H3 & H4)]]]]].
  - rewrite (case0_any s b H0), validates_false, !app_nil_r by lia.
    eexists. split; [reflexivity |].
    destruct (u8 b =? 0xAA); unfold wf; cbn [Phase data1 LocalIndex out_gs out_eeg];
      repeat split; auto; lia.
  - rewrite (case1_any s b H1), validates_false, !app_nil_r by lia.
    eexists. split; [reflexivity |].
    destruct (u8 b =? 0x55); unfold wf; cbn [Phase data1 LocalIndex out_gs out_eeg];
      repeat split; auto; lia.
  - destruct (case2_any s b H2 (Ho H2) Hd) as [v Hv].
    rewrite Hv, validates_false, !app_nil_r by lia.
    eexists. split; [reflexivity |].
    unfold wf; cbn [Phase data1 LocalIndex out_gs out_eeg]. rewrite length_insert.
    specialize (Ho H2).
    destruct (Z.eqb_spec (LocalIndex s + 1) 36); repeat split; auto; lia.
  - rewrite (case3 s b H3), validates_false, !app_nil_r by lia.
    eexists. split; [reflexivity |].
    unfold wf; cbn [Phase data1 LocalIndex out_gs out_eeg]. repeat split; auto; lia.
  - rewrite (case4_any s b H4 Hd). eexists. split; [reflexivity |].
    destruct (validates s b); unfold wf; cbn [Phase data1 LocalIndex out_gs out_eeg];
      rewrite ?app_nil_r; repeat split; auto; lia.
  - rewrite (case_other s b), validates_false, !app_nil_r by assumption.
    eexists. split; [reflexivity |]. unfold wf. repeat split; auto; lia.
Qed.

Lemma wf_init : wf parser_init.
Proof. split; [reflexivity | cbn; lia]. Qed.

(** Any input, from a well-formed state. *)
Lemma feed_wf (bs : list byte) :
  forall s : state,
    wf s ->
    exists s',
      feed s bs = Some s' /\ wf s' /\
      out_gs s' = out_gs s ++ flat_map gs_of (validated s bs) /\
      out_eeg s' = out_eeg s ++ map eeg_of (validated s bs) /\
      (0 <= LocalIndex s <= 36 -> 0 <= LocalIndex s' <= 36).
Proof.
  induction bs as [| b bs IH]; intros s Hs.
  - exists s. cbn [feed validated flat_map map]. rewrite !app_nil_r. auto.
  - destruct (parser_byte_wf s b Hs) as (s1 & Hstep & Hs1 & Hgs & Heeg & Hoff).
    destruct (IH s1 Hs1) as (s' & Hrun & Hs' & Hgs' & Heeg' & Hoff').
    exists s'. cbn [feed validated]. rewrite Hstep. cbn [mbind option_bind].
    split; [exact Hrun |]. split; [exact Hs' |].
    rewrite Hgs', Heeg', Hgs, Heeg, flat_map_app, map_app, <- !app_assoc.
    destruct (validates s b); cbn [flat_map map app]; rewrite ?app_nil_r; auto.
Qed.

(** ** Text of the records *)

Lemma append_cons (x : ascii) (a b : string) : String x a +:+ b = String x (a +:+ b).
Proof. reflexivity. Qed.

Lemma append_assoc_s (a b c : string) : (a +:+ b) +:+ c = a +:+ (b +:+ c).
Proof.
  induction a as [| x a IH]; [reflexivity |].
  rewrite !append_cons, IH. reflexivity.
Qed.

Lemma append_empty_r (a : string) : a +:+ EmptyString = a.
Proof.
  induction a as [| x a IH]; [reflexivity |].
  rewrite append_cons, IH. reflexivity.
Qed.

Lemma records_app (a b : string) : records (a +:+ b) = (records a + records b)%nat.
Proof.
  induction a as [| x a IH]; [reflexivity |].
  rewrite append_cons. cbn [records]. rewrite IH.
  destruct (Ascii.eqb x "010"); reflexivity.
Qed.

Lemma records_uint (u : Decimal.uint) : records (NilEmpty.string_of_uint u) = 0%nat.
Proof. induction u; cbn; auto. Qed.

(** A number in decimal holds no newline. *)
Lemma records_dec (v : Z) : records (dec v) = 0%nat.
Proof.
  unfold dec. destruct (Z.to_int v) as [u | u]; cbn [NilEmpty.string_of_int].
  - apply records_uint.
  - cbn [records]. apply records_uint.
Qed.

Lemma stream_text_app (fmt_f : Z -> string) (xs ys : list fprintf_call) :
  stream_text fmt_f (xs ++ ys) =
    a ← stream_text fmt_f xs; b ← stream_text fmt_f ys; Some (a +:+ b).
Proof.
  induction xs as [| x xs IH].
  - cbn [app stream_text mbind option_bind].
    destruct (stream_text fmt_f ys); reflexivity.
  - cbn [app stream_text]. rewrite IH.
    destruct (render_call fmt_f x) as [t |]; [| reflexivity]. cbn [mbind option_bind].
    destruct (stream_text fmt_f xs) as [a |]; [| reflexivity]. cbn [mbind option_bind].
    destruct (stream_text fmt_f ys) as [b |]; [| reflexivity]. cbn [mbind option_bind].
    rewrite append_assoc_s. reflexivity.
Qed.

Lemma render_error_call (fmt_f : Z -> string) (p : Z) :
  render_call fmt_f (error_call p) = Some ("Error packet " +:+ dec p +:+ nl).
Proof. reflexivity. Qed.

Lemma render_eeg_call (fmt_f : Z -> string) (p w0 w9 : Z) :
  render_call fmt_f (eeg_call p w0 w9) = Some (eeg_record fmt_f p w0 w9).
Proof. reflexivity. Qed.

(** The two calls of a GS record give the line of the specification. *)
Lemma stream_text_gs_calls (fmt_f : Z -> string) (p w3 w16 : Z) :
  stream_text fmt_f (gs_calls p w3 w16) = Some (spec_gs_record p w3 w16).
Proof.
  unfold gs_calls, spec_gs_record. cbn [stream_text]. unfold render_call. cbn [fmt args].
  change (render fmt_f "%d, %d, %d " [ArgInt p; ArgInt w3; ArgInt w16])
    with (Some (dec p +:+ ", " +:+ dec w3 +:+ ", " +:+ dec w16 +:+ " ")).
  change (render fmt_f nl []) with (Some nl).
  cbn [mbind option_bind]. rewrite append_empty_r, !append_assoc_s. reflexivity.
Qed.

Lemma stream_text_gs (fmt_f : Z -> string) (vs : list (Z * list Z)) :
  stream_text fmt_f (flat_map gs_of vs) = Some (spec_gs_text vs).
Proof.
  induction vs as [| v vs IH]; [reflexivity |].
  cbn [flat_map spec_gs_text]. rewrite stream_text_app, IH. unfold gs_of.
  destruct (word v.2 16 =? 255).
  - reflexivity.
  - rewrite stream_text_gs_calls. reflexivity.
Qed.

Lemma records_spec_gs_record (p w3 w16 : Z) : records (spec_gs_record p w3 w16) = 1%nat.
Proof.
  unfold spec_gs_record. rewrite !records_app, !records_dec. reflexivity.
Qed.

Lemma records_spec_gs_text (vs : list (Z * list Z)) :
  records (spec_gs_text vs) = length (gs_packets vs).
Proof.
  unfold gs_packets. induction vs as [| v vs IH]; [reflexivity |].
  cbn [spec_gs_text]. rewrite records_app, IH, filter_cons.
  destruct (Z.eqb_spec (word v.2 16) 255) as [E | E].
  - destruct (decide (word v.2 16 <> 255)); [contradiction | reflexivity].
  - destruct (decide (word v.2 16 <> 255)); [| contradiction].
    rewrite records_spec_gs_record. reflexivity.
Qed.

Lemma validates_true (s : state) (b : byte) :
  Phase s = 4 -> to_ushort (MsgCRC s + u8 b) = Crc s -> validates s b = true.
Proof.
  intros HP Hc. unfold validates. rewrite HP, Hc, !Z.eqb_refl. reflexivity.
Qed.

(** ** The payload offset *)

(** Outside case 2 the buffer is not written and case 3 is not entered. *)
Lemma parser_byte_not_collecting (s : state) (b : byte) :
  Phase s <> 2 -> length (data1 s) = 18%nat ->
  exists s', parser_byte s b = Some s' /\ data1 s' = data1 s /\ Phase s' <> 3.
Proof.
  intros H2 Hd.
  destruct (phase_cases s) as [H0 | [H1 | [H | [H3 | [H4 | (H0 & H1 & _ & H3 & H4)]]]]];
    [| | contradiction | | |].
  - rewrite (case0_any s b H0). eexists. split; [reflexivity |].
    destruct (u8 b =? 0xAA); cbn [data1 Phase]; split; auto; lia.
  - rewrite (case1_any s b H1). eexists. split; [reflexivity |].
    destruct (u8 b =? 0x55); cbn [data1 Phase]; split; auto; lia.
  - rewrite (case3 s b H3). eexists. split; [reflexivity |].
    cbn [data1 Phase]. split; auto; lia.
  - rewrite (case4_any s b H4 Hd). eexists. split; [reflexivity |].
    destruct (validates s b); cbn [data1 Phase]; split; auto; lia.
  - rewrite (case_other s b) by assumption. eexists. split; [reflexivity |]. auto.
Qed.

(** ** Return to AwaitMagic1 *)

Lemma drain_payload (n : nat) :
  forall (s : state) (cont : list byte),
    length (data1 s) = 18%nat -> Phase s = 2 -> 0 <= LocalIndex s ->
    LocalIndex s + Z.of_nat n = 36 -> (0 < n)%nat -> (n <= length cont)%nat ->
    exists s', feed s (take n cont) = Some s' /\ Phase s' = 3 /\ length (data1 s') = 18%nat.
Proof.
  induction n as [| m IH]; intros s cont Hd HP Ho Hn Hpos Hlen; [lia |].
  destruct cont as [| b cont]; [cbn [length] in Hlen; lia |].
  cbn [length] in Hlen. cbn [take feed].
  destruct (case2_any s b HP ltac:(lia) Hd) as [v Hv]. rewrite Hv. cbn [mbind option_bind].
  destruct m as [| m].
  - cbn [take feed]. eexists. split; [reflexivity |]. cbn [Phase data1].
    rewrite length_insert.
    destruct (Z.eqb_spec (LocalIndex s + 1) 36); [auto | lia].
  - apply IH; cbn [Phase data1 LocalIndex]; try lia.
    + rewrite length_insert. exact Hd.
    + destruct (Z.eqb_spec (LocalIndex s + 1) 36); [lia | reflexivity].
Qed.

Lemma from_crc_high (s : state) (b1 b2 : byte) :
  Phase s = 3 -> length (data1 s) = 18%nat ->
  exists s', feed s [b1; b2] = Some s' /\ Phase s' = 0.
Proof.
  intros HP Hd. cbn [feed]. rewrite (case3 s b1 HP). cbn [mbind option_bind].
  rewrite case4_any by (reflexivity || exact Hd). cbn [mbind option_bind].
  eexists. split; [reflexivity |]. destruct (validates _ b2); reflexivity.
Qed.

(** Past the magic prefix the parser is back in case 0 within 38 bytes. *)
Lemma back_to_magic1 (t : state) (cont : list byte) :
  wf t -> 2 <= Phase t <= 4 -> (38 <= length cont)%nat ->
  exists (k : nat) (t' : state),
    (k <= 38)%nat /\ feed t (take k cont) = Some t' /\ Phase t' = 0.
Proof.
  intros [Hd Ho] HP Hlen.
  destruct (Z.eq_dec (Phase t) 4) as [H4 | H4];
    [| destruct (Z.eq_dec (Phase t) 3) as [H3 | H3]].
  - destruct cont as [| b cont]; [cbn [length] in Hlen; lia |].
    exists 1%nat. cbn [take]. rewrite take_0. cbn [feed].
    rewrite (case4_any t b H4 Hd). cbn [mbind option_bind].
    eexists. split; [lia |]. split; [reflexivity |]. destruct (validates t b); reflexivity.
  - destruct cont as [| b1 [| b2 cont]]; try (cbn [length] in Hlen; lia).
    exists 2%nat. cbn [take]. rewrite take_0.
    destruct (from_crc_high t b1 b2 H3 Hd) as (t' & Hrun & Hph).
    exists t'. split; [lia |]. split; assumption.
  - assert (H2 : Phase t = 2) by lia. specialize (Ho H2).
    set (n := Z.to_nat (36 - LocalIndex t)).
    destruct (drain_payload n t cont Hd H2) as (s3 & Hrun & HP3 & Hd3); try (subst n; lia).
    assert (Hrest : (2 <= length (drop n cont))%nat) by (rewrite length_drop; subst n; lia).
    destruct (drop n cont) as [| b1 [| b2 rest]] eqn:Edrop;
      try (cbn [length] in Hrest; lia).
    destruct (from_crc_high s3 b1 b2 HP3 Hd3) as (t' & Hrun' & Hph).
    exists (n + 2)%nat, t'. split; [subst n; lia |]. split; [| exact Hph].
    rewrite <- take_take_drop, feed_app, Hrun, Edrop. cbn [mbind option_bind take].
    rewrite take_0. exact Hrun'.
Qed.

(** * The properties of the specification *)

(** ** Checksum validation *)

(** C1. For every frame (0xAA 0x55, 36 payload bytes, two checksum bytes) met
    in AwaitMagic1, the accumulator ends as the sum of the 38 bytes before
    the checksum, taken in the integers and so without any truncation to 8
    bits, the checksum bytes are not added to it, and the packet is accepted
    and its record emitted iff the word (first checksum byte << 8) + second
    checksum byte equals that sum modulo 2^16. *)
Theorem checksum_accepts_iff (s : state) (p : list byte) (c1 c2 : byte) :
  Phase s = AwaitMagic1 -> length (data1 s) = 18%nat -> length p = 36%nat ->
  exists s',
    parser 40 (frame p c1 c2) s = Some s' /\
    Crc s' = byte_sum (xaa :: x55 :: p) mod 65536 /\
    Crc s' = 0xAA + 0x55 + byte_sum p /\
    MsgCRC s' = checksum_word c1 c2 /\
    (checksum_word c1 c2 = byte_sum (xaa :: x55 :: p) mod 65536 <-> RdyFlg s' = 1) /\
    (checksum_word c1 c2 = byte_sum (xaa :: x55 :: p) mod 65536 <->
       out_eeg s' = out_eeg s ++ [eeg_of (to_ushort (packet s + 1), be_words p)]) /\
    (checksum_word c1 c2 = byte_sum (xaa :: x55 :: p) mod 65536 ->
       packet s' = to_ushort (packet s + 1) /\ data1 s' = be_words p) /\
    (checksum_word c1 c2 <> byte_sum (xaa :: x55 :: p) mod 65536 ->
       packet s' = packet s /\ out_eeg s' = out_eeg s /\ out_gs s' = out_gs s).
Proof.
  intros HP Hd Hp. rewrite parser_frame by exact Hp.
  destruct (Z.eq_dec (checksum_word c1 c2) (byte_sum (xaa :: x55 :: p) mod 65536)) as [E | E].
  - rewrite (frame_valid s p c1 c2 HP Hd Hp E). eexists. split; [reflexivity |].
    cbn [Crc MsgCRC RdyFlg out_eeg out_gs packet data1].
    rewrite (frame_sum p Hp) in *. repeat split; try tauto; try lia.
  - rewrite (frame_invalid s p c1 c2 HP Hd Hp E). eexists. split; [reflexivity |].
    cbn [Crc MsgCRC RdyFlg out_eeg out_gs packet data1].
    rewrite (frame_sum p Hp) in *. repeat split; try tauto; try lia.
    intros H. apply (f_equal length) in H. rewrite length_app in H. cbn in H. lia.
Qed.

Lemma checksum_accepts_iff_witness :
  Phase parser_init = AwaitMagic1 /\ length (data1 parser_init) = 18%nat /\
  length (replicate 36 x01) = 36%nat /\
  exists s', parser 40 happy_frame parser_init = Some s' /\
             Crc s' = 0x123 /\ MsgCRC s' = 0x123 /\ RdyFlg s' = 1.
Proof.
  split; [reflexivity |]. split; [reflexivity |]. split; [reflexivity |].
  destruct (checksum_accepts_iff parser_init (replicate 36 x01) x01 x23)
    as (s' & Hrun & _ & Hcrc & Hmsg & Hrdy & _);
    [reflexivity | reflexivity | reflexivity |].
  exists s'. split; [exact Hrun |]. split; [exact Hcrc |]. split; [exact Hmsg |].
  apply Hrdy. reflexivity.
Defined.

(** ** The second magic byte *)

(** C2, as the specification has it, fails on 0xAA 0xAA: the parser is not
    back in AwaitMagic1 after the second 0xAA, and the 0x55 that follows
    starts the payload. *)
Lemma magic2_drop_back_counterexample :
  Phase <$> parser 2 [xaa; xaa] parser_init <> Some AwaitMagic1 /\
  Phase <$> parser 3 [xaa; xaa; x55] parser_init = Some CollectingPayload.
Proof. split; [vm_compute; discriminate | vm_compute; reflexivity]. Qed.

(** C2, amended. In AwaitMagic2 a byte other than 0x55 (0xAA included)
    changes nothing: the parser stays in AwaitMagic2, the byte is not taken
    as a new 0xAA, and the 0x55 that follows opens the payload with the
    accumulator of the pending 0xAA; so 0xAA, that byte, 0x55 met in
    AwaitMagic1 put the parser into CollectingPayload at offset 0 with
    accumulator 0xAA + 0x55. *)
Theorem magic2_waits_for_0x55 (s t : state) (b : byte) :
  Phase s = AwaitMagic2 -> Phase t = AwaitMagic1 -> b <> x55 ->
  parser_byte s b = Some s /\
  parser 2 [b; x55] s =
    Some (State CollectingPayload (to_ushort (Crc s + 0x55)) 0 0 (MsgCRC s) (data1 s)
                (packet s) (out_gs s) (out_eeg s) (std_out s)) /\
  parser 2 [xaa; b] t = parser 1 [xaa] t /\
  Phase <$> parser 2 [xaa; b] t = Some AwaitMagic2 /\
  parser 3 [xaa; b; x55] t =
    Some (State CollectingPayload 0xFF 0 0 (MsgCRC t) (data1 t)
                (packet t) (out_gs t) (out_eeg t) (std_out t)).
Proof.
  intros Hs Ht Hb.
  assert (Hu : u8 b <> 0x55) by (intros E; apply Hb, u8_inj, E).
  assert (Hstay : parser_byte s b = Some s) by (apply case1_other; assumption).
  rewrite !parser_sized by reflexivity. cbn [feed].
  rewrite Hstay, (case0_magic t Ht). cbn [mbind option_bind].
  rewrite (case1_magic s Hs).
  rewrite (case1_other _ b) by (reflexivity || exact Hu). cbn [mbind option_bind].
  rewrite case1_magic by reflexivity.
  repeat split.
Qed.

Lemma magic2_waits_for_0x55_witness :
  Phase after_magic1 = AwaitMagic2 /\ Phase parser_init = AwaitMagic1 /\ xaa <> x55 /\
  parser_byte after_magic1 xaa = Some after_magic1 /\
  Phase <$> parser 3 [xaa; xaa; x55] parser_init = Some CollectingPayload.
Proof.
  assert (H : xaa <> x55) by discriminate.
  split; [reflexivity |]. split; [reflexivity |]. split; [exact H |].
  destruct (magic2_waits_for_0x55 after_magic1 parser_init xaa) as (H1 & _ & _ & _ & H5);
    [reflexivity | reflexivity | exact H |].
  split; [exact H1 |]. rewrite H5. reflexivity.
Defined.

(** ** Payload words *)

(** C3. While collecting, with offset [o] and word index [w = o / 2]: at an
    even offset the byte is stored in word [w] as the sign-extended value of
    [b << 8], a multiple of 256; at an odd offset it is OR-ed into word [w].
    Hence the two bytes of a word leave its signed 16-bit big-endian value,
    0x80 0x00 gives -32768, 0x7F 0xFF gives 32767, and a whole payload leaves
    its eighteen big-endian words in the buffer. *)
Theorem payload_words_big_endian (s : state) (o : Z) (b l : byte) (p : list byte) :
  Phase s = CollectingPayload -> LocalIndex s = o -> 0 <= o < 36 ->
  length (data1 s) = 18%nat -> length p = 36%nat ->
  let w := Z.to_nat (o / 2) in
  (Z.even o = true ->
     data1 <$> parser_byte s b =
       Some (<[w := if u8 b <? 128 then 256 * u8 b else 256 * u8 b - 65536]> (data1 s)) /\
     data1 <$> feed s [b; l] = Some (<[w := to_short (256 * u8 b + u8 l)]> (data1 s)) /\
     data1 <$> feed s [x80; x00] = Some (<[w := -32768]> (data1 s)) /\
     data1 <$> feed s [x7f; xff] = Some (<[w := 32767]> (data1 s))) /\
  (Z.even o = false ->
     data1 <$> parser_byte s b =
       Some (<[w := to_short (Z.lor (word (data1 s) w) (u8 b))]> (data1 s))) /\
  (o = 0 -> data1 <$> feed s p = Some (be_words p)).
Proof.
  intros HP HL Ho Hd Hp w. change (Phase s = 2) in HP.
  split; [intros He | split; [intros He | intros H0]].
  - (* even offset: the first byte of word k, then the second *)
    apply Z.even_spec in He. destruct He as [k Hk].
    assert (Hw : o / 2 = k) by (symmetry; apply Z.div_unique with 0; lia).
    subst w. rewrite Hw. pose proof (u8_range b).
    rewrite (case2_even s b k), !(feed_word s _ _ k) by lia.
    cbn [fmap option_fmap option_map data1].
    rewrite shiftl_byte, to_short_high by lia. repeat split.
  - (* odd offset *)
    rewrite <- Z.negb_odd in He. apply negb_false_iff, Z.odd_spec in He.
    destruct He as [k Hk].
    assert (Hw : o / 2 = k) by (symmetry; apply Z.div_unique with 1; lia).
    subst w. rewrite Hw.
    rewrite (case2_odd s b k (word (data1 s) (Z.to_nat k))); try lia.
    + reflexivity.
    + apply lookup_word. lia.
  - (* the whole payload *)
    rewrite (feed_words p 0 18) by lia.
    cbn [fmap option_fmap option_map data1].
    rewrite take_0, drop_ge, app_nil_r by lia. reflexivity.
Qed.

Lemma payload_words_big_endian_witness :
  Phase after_magic2 = CollectingPayload /\ LocalIndex after_magic2 = 0 /\ 0 <= 0 < 36 /\
  length (data1 after_magic2) = 18%nat /\ length (replicate 36 x01) = 36%nat /\
  data1 <$> feed after_magic2 [x80; x00] = Some (<[0%nat := -32768]> (replicate 18 0)) /\
  data1 <$> feed after_magic2 (replicate 36 x01) = Some (replicate 18 257).
Proof.
  split; [reflexivity |]. split; [reflexivity |]. split; [lia |].
  split; [reflexivity |]. split; [reflexivity |].
  destruct (payload_words_big_endian after_magic2 0 x80 x00 (replicate 36 x01))
    as (Heven & _ & Hall);
    [reflexivity | reflexivity | lia | reflexivity | reflexivity |].
  destruct (Heven eq_refl) as (_ & _ & Hmin & _).
  split; [exact Hmin |]. apply Hall. reflexivity.
Defined.

(** ** Checksum mismatch *)

(** C4. When the last checksum byte does not complete the value of the
    accumulator, nothing is written to the GS stream or to the EEG stream,
    the packet counter keeps its value, one report citing that value is
    written, and the parser is in AwaitMagic1.  So a frame with a wrong
    checksum, met by the parser in its initial state, leaves both streams
    empty and the single report "Error packet 0". *)
Theorem checksum_mismatch_reported
    (s : state) (b : byte) (p : list byte) (c1 c2 : byte) (fmt_f : Z -> string) :
  Phase s = AwaitCrcLow -> to_ushort (MsgCRC s + u8 b) <> Crc s ->
  length p = 36%nat -> checksum_word c1 c2 <> byte_sum (xaa :: x55 :: p) mod 65536 ->
  (exists s', parser_byte s b = Some s' /\
     out_gs s' = out_gs s /\ out_eeg s' = out_eeg s /\ packet s' = packet s /\
     std_out s' = std_out s ++ [error_call (packet s)] /\ Phase s' = AwaitMagic1) /\
  render_call fmt_f (error_call (packet s)) = Some ("Error packet " +:+ dec (packet s) +:+ nl) /\
  (exists s', parser 40 (frame p c1 c2) parser_init = Some s' /\
     out_gs s' = [] /\ out_eeg s' = [] /\ packet s' = 0 /\
     std_out s' = [error_call 0] /\ Phase s' = AwaitMagic1 /\
     stream_text fmt_f (std_out s') = Some ("Error packet 0" +:+ nl)).
Proof.
  intros HP Hne Hp Hc. split; [| split].
  - rewrite (case4_invalid s b HP Hne). eexists. repeat split.
  - apply render_error_call.
  - rewrite parser_frame by exact Hp.
    rewrite (frame_invalid parser_init p c1 c2) by (reflexivity || assumption).
    eexists. repeat split.
Qed.

Lemma checksum_mismatch_reported_witness :
  Phase (State 4 0x123 0 36 0x100 (replicate 18 257) 0 [] [] []) = AwaitCrcLow /\
  length (replicate 36 x01) = 36%nat /\
  checksum_word x01 xdc <> byte_sum (xaa :: x55 :: replicate 36 x01) mod 65536 /\
  exists s', parser 40 corrupted_frame parser_init = Some s' /\
     out_gs s' = [] /\ out_eeg s' = [] /\ packet s' = 0 /\ std_out s' = [error_call 0].
Proof.
  assert (Hc : checksum_word x01 xdc <> byte_sum (xaa :: x55 :: replicate 36 x01) mod 65536)
    by (vm_compute; discriminate).
  split; [reflexivity |]. split; [reflexivity |]. split; [exact Hc |].
  destruct (checksum_mismatch_reported
              (State 4 0x123 0 36 0x100 (replicate 18 257) 0 [] [] []) xdc
              (replicate 36 x01) x01 xdc (fun _ => EmptyString))
    as (_ & _ & s' & Hrun & Hgs & Heeg & Hpk & Hstd & _);
    [reflexivity | vm_compute; discriminate | reflexivity | exact Hc |].
  exists s'. repeat split; assumption.
Defined.

(** ** The EEG record *)

(** *** The product and its text *)

Example double_0_076_nearest :
  Z.abs (1000 * 5476377146882523 - 76 * 2 ^ 56) * 2 <= 1000.
Proof. vm_compute. discriminate. Qed.

Example printf_scaled_examples :
  printf_scaled true 257 = "19.532000" /\ printf_scaled true (-1) = "-0.076000" /\
  printf_scaled true 0 = "0.000000" /\ printf_scaled false 32767 = "2490.292000" /\
  printf_scaled false (-32768) = "-2490.368000".
Proof. repeat split; vm_compute; reflexivity. Qed.

Lemma all_from_spec (bits : nat) :
  forall (base : Z) (f : Z -> bool),
    all_from bits base f = true ->
    forall z, base * 2 ^ Z.of_nat bits <= z < (base + 1) * 2 ^ Z.of_nat bits -> f z = true.
Proof.
  induction bits as [| n IH]; intros base f H z Hz.
  - cbn [all_from] in H. change (2 ^ Z.of_nat 0) with 1 in Hz.
    replace z with base by lia. exact H.
  - cbn [all_from] in H. apply andb_true_iff in H. destruct H as [H1 H2].
    rewrite Nat2Z.inj_succ, Z.pow_succ_r in Hz by lia.
    assert (Hp : 0 < 2 ^ Z.of_nat n) by (apply Z.pow_pos_nonneg; lia).
    destruct (Z.lt_ge_cases z ((2 * base + 1) * 2 ^ Z.of_nat n)).
    + apply (IH (2 * base) f H1). lia.
    + apply (IH (2 * base + 1) f H2). lia.
Qed.

(** Every [short] checked, one by one. *)
Lemma sample_ok_all : all_from 16 0 (fun z => sample_ok (z - 32768)) = true.
Proof. vm_compute. reflexivity. Qed.

Lemma sample_ok_short (w : Z) : in_short w -> sample_ok w = true.
Proof.
  intros Hw. unfold in_short in Hw.
  pose proof (all_from_spec 16 0 _ sample_ok_all (w + 32768)) as H.
  change (2 ^ Z.of_nat 16) with 65536 in H. cbv beta in H.
  replace (w + 32768 - 32768) with w in H by lia. apply H. lia.
Qed.

(** For every [short] word, [%f] of the product prints the decimal
    [w * 0.076] with six digits after the point, however ties are rounded. *)
Lemma printf_scaled_microvolts (ties_even : bool) (w : Z) :
  in_short w -> printf_scaled ties_even w = microvolts w.
Proof.
  intros Hw. pose proof (sample_ok_short w Hw) as Hok.
  unfold printf_scaled. unfold sample_ok in Hok.
  destruct (scaled_sample w) as [sg | sg | | sg m e]; try discriminate Hok.
  - apply andb_true_iff in Hok. destruct Hok as [H0 Hs].
    apply Z.eqb_eq in H0. subst w. destruct sg; [discriminate Hs | reflexivity].
  - cbv zeta in Hok.
    apply andb_true_iff in Hok. destruct Hok as [Hok Hr].
    apply andb_true_iff in Hok. destruct Hok as [Hs He].
    apply andb_true_iff in Hr. destruct Hr as [Htie Hq].
    apply Bool.eqb_prop in Hs. apply Z.ltb_lt in He.
    apply negb_true_iff, Z.eqb_neq in Htie. apply Z.eqb_eq in Hq.
    rewrite Z.shiftr_div_pow2, Z.land_ones, Z.shiftl_1_l in * by lia.
    assert (Hn : millionths ties_even m e = Z.abs w * 76 * 1000).
    { unfold millionths. cbv zeta.
      destruct (Z.leb_spec 0 e); [lia |].
      destruct (Z.ltb_spec (2 * (Z.pos m * 1000000 mod 2 ^ (- e))) (2 ^ (- e)));
        [exact Hq |].
      destruct (Z.ltb_spec (2 ^ (- e)) (2 * (Z.pos m * 1000000 mod 2 ^ (- e))));
        [exact Hq | lia]. }
    unfold printf_f, microvolts. cbv zeta. rewrite Hn, Hs.
    change 1000000 with (1000 * 1000).
    rewrite Z.div_mul_cancel_r, Z.mul_mod_distr_r by lia. reflexivity.
Qed.

(** *** Fields hold no separator *)

Lemma count_char_app (c : ascii) (a b : string) :
  count_char c (a +:+ b) = (count_char c a + count_char c b)%nat.
Proof.
  induction a as [| x a IH]; [reflexivity |].
  rewrite append_cons. cbn [count_char]. rewrite IH.
  destruct (Ascii.eqb x c); reflexivity.
Qed.

Lemma records_count (t : string) : records t = count_char "010" t.
Proof.
  induction t as [| x t IH]; [reflexivity |]. cbn [records count_char]. rewrite IH.
  reflexivity.
Qed.

Lemma count_uint (c : ascii) (u : Decimal.uint) :
  separator c -> count_char c (NilEmpty.string_of_uint u) = 0%nat.
Proof. intros [-> | [-> | ->]]; induction u; cbn; auto. Qed.

Lemma count_dec (c : ascii) (v : Z) : separator c -> count_char c (dec v) = 0%nat.
Proof.
  intros Hc. unfold dec. destruct (Z.to_int v) as [u | u]; cbn [NilEmpty.string_of_int].
  - apply count_uint, Hc.
  - cbn [count_char]. rewrite (count_uint c u Hc).
    destruct Hc as [-> | [-> | ->]]; reflexivity.
Qed.

Lemma digit_not_separator (c : ascii) (d : Z) :
  separator c -> 0 <= d < 10 -> Ascii.eqb (digit d) c = false.
Proof.
  intros Hc Hd.
  assert (H : d = 0 \/ d = 1 \/ d = 2 \/ d = 3 \/ d = 4 \/ d = 5 \/ d = 6 \/ d = 7 \/
              d = 8 \/ d = 9) by lia.
  destruct Hc as [-> | [-> | ->]];
    repeat (destruct H as [-> | H]; [reflexivity |]); subst d; reflexivity.
Qed.

Lemma count_decimals (c : ascii) (n : nat) :
  separator c ->
  forall (v : Z) (acc : string), count_char c (decimals n v acc) = count_char c acc.
Proof.
  intros Hc. induction n as [| n IH]; intros v acc; [reflexivity |].
  cbn [decimals]. rewrite IH. cbn [count_char].
  rewrite digit_not_separator; [reflexivity | exact Hc |].
  apply Z.mod_pos_bound. lia.
Qed.

Lemma count_microvolts (c : ascii) (w : Z) :
  separator c -> count_char c (microvolts w) = 0%nat.
Proof.
  intros Hc. unfold microvolts. cbv zeta.
  rewrite !count_char_app, count_dec, count_decimals by exact Hc.
  destruct Hc as [-> | [-> | ->]]; destruct (w <? 0); reflexivity.
Qed.

Lemma hex_digit_not_separator (c : ascii) (d : Z) :
  separator c -> 0 <= d < 16 -> Ascii.eqb (hex_digit d) c = false.
Proof.
  intros Hc Hd.
  assert (H : d = 0 \/ d = 1 \/ d = 2 \/ d = 3 \/ d = 4 \/ d = 5 \/ d = 6 \/ d = 7 \/
              d = 8 \/ d = 9 \/ d = 10 \/ d = 11 \/ d = 12 \/ d = 13 \/ d = 14 \/ d = 15)
    by lia.
  destruct Hc as [-> | [-> | ->]];
    repeat (destruct H as [-> | H]; [reflexivity |]); subst d; reflexivity.
Qed.

Lemma count_hex_digits (c : ascii) (n : nat) :
  separator c ->
  forall (v : Z) (acc : string), count_char c (hex_digits n v acc) = count_char c acc.
Proof.
  intros Hc. induction n as [| n IH]; intros v acc; [reflexivity |].
  cbn [hex_digits]. rewrite IH. cbn [count_char].
  rewrite hex_digit_not_separator; [reflexivity | exact Hc |].
  apply Z.mod_pos_bound. lia.
Qed.

Lemma count_hex8 (c : ascii) (v : Z) : separator c -> count_char c (hex8 v) = 0%nat.
Proof. intros Hc. unfold hex8. rewrite count_hex_digits by exact Hc. reflexivity. Qed.

(** The separators of a line [a, b, c, d] and a newline whose four fields
    hold none. *)
Lemma count_eeg_line (c : ascii) (f1 f2 f3 f4 : string) :
  separator c ->
  count_char c f1 = 0%nat -> count_char c f2 = 0%nat ->
  count_char c f3 = 0%nat -> count_char c f4 = 0%nat ->
  count_char c (f1 +:+ ", " +:+ f2 +:+ ", " +:+ f3 +:+ ", " +:+ f4 +:+ nl) =
    if Ascii.eqb c "010" then 1%nat else 3%nat.
Proof.
  intros Hc H1 H2 H3 H4. rewrite !count_char_app, H1, H2, H3, H4.
  destruct Hc as [-> | [-> | ->]]; reflexivity.
Qed.




(** ** The GS record *)

(** C6. At a validation the GS stream receives the two calls whose text is
    [<packet>, <word3>, <word16> ] and a newline iff word 16, compared as the
    signed 16-bit value it is, differs from 255, and nothing otherwise.  Over
    any input the GS stream grows by the text of one such record for each
    validated packet whose word 16 is not 255, so the number of its records
    is the number of those packets. *)
Theorem gs_record_iff_word16
    (s t : state) (b : byte) (bs : list byte) (fmt_f : Z -> string) :
  Phase s = AwaitCrcLow -> to_ushort (MsgCRC s + u8 b) = Crc s ->
  length (data1 s) = 18%nat -> wf t ->
  (exists s',
     parser_byte s b = Some s' /\ packet s' = to_ushort (packet s + 1) /\
     (word (data1 s) 16 <> 255 ->
        out_gs s' =
          out_gs s ++ gs_calls (packet s') (word (data1 s) 3) (word (data1 s) 16)) /\
     (word (data1 s) 16 = 255 -> out_gs s' = out_gs s) /\
     (word (data1 s) 16 <> 255 <-> out_gs s' <> out_gs s) /\
     stream_text fmt_f (gs_calls (packet s') (word (data1 s) 3) (word (data1 s) 16)) =
       Some (dec (packet s') +:+ ", " +:+ dec (word (data1 s) 3) +:+ ", " +:+
             dec (word (data1 s) 16) +:+ " " +:+ nl)) /\
  (exists t',
     parser (Z.of_nat (length bs)) bs t = Some t' /\
     out_gs t' = out_gs t ++ flat_map gs_of (validated t bs) /\
     stream_text fmt_f (flat_map gs_of (validated t bs)) =
       Some (spec_gs_text (validated t bs)) /\
     records (spec_gs_text (validated t bs)) =
       length (filter (fun v => word v.2 16 <> 255) (validated t bs))).
Proof.
  intros HP Hc Hd Ht. split.
  - rewrite (case4_any s b HP Hd), (validates_true s b HP Hc).
    eexists. split; [reflexivity |]. cbn [packet out_gs]. unfold gs_of. cbn [fst snd].
    split; [reflexivity |].
    destruct (Z.eqb_spec (word (data1 s) 16) 255) as [E | E].
    + rewrite app_nil_r. repeat split; try tauto; try congruence.
      apply stream_text_gs_calls.
    + repeat split; try tauto; try congruence.
      * intros _ H. apply (f_equal length) in H. rewrite length_app in H. cbn in H. lia.
      * apply stream_text_gs_calls.
  - rewrite parser_feed. destruct (feed_wf bs t Ht) as (t' & Hrun & _ & Hgs & _).
    exists t'. split; [exact Hrun |]. split; [exact Hgs |].
    split; [apply stream_text_gs | apply records_spec_gs_text].
Qed.

Lemma gs_record_iff_word16_witness :
  Phase (State 4 0x123 0 36 0x100 (replicate 16 257 ++ [-1; 257]) 7 [] [] []) = AwaitCrcLow /\
  wf parser_init /\
  (exists s',
     parser_byte (State 4 0x123 0 36 0x100 (replicate 16 257 ++ [-1; 257]) 7 [] [] []) x23
       = Some s' /\
     out_gs s' = gs_calls 8 257 (-1)) /\
  (exists t',
     parser 40 happy_frame parser_init = Some t' /\
     stream_text (fun _ => EmptyString) (out_gs t') = Some ("1, 257, 257 " +:+ nl)).
Proof.
  split; [reflexivity |]. split; [exact wf_init |].
  destruct (gs_record_iff_word16
              (State 4 0x123 0 36 0x100 (replicate 16 257 ++ [-1; 257]) 7 [] [] [])
              parser_init x23 happy_frame (fun _ => EmptyString))
    as ((s' & Hstep & Hpk & Hrec & _) & (t' & Hrun & Hgs & Htext & _));
    [reflexivity | reflexivity | reflexivity | exact wf_init |].
  split.
  - exists s'. split; [exact Hstep |]. rewrite Hrec, Hpk; [reflexivity |].
    vm_compute. discriminate.
  - exists t'. split; [exact Hrun |]. rewrite Hgs.
    change (out_gs parser_init ++ flat_map gs_of (validated parser_init happy_frame))
      with (flat_map gs_of (validated parser_init happy_frame)).
    rewrite Htext. vm_compute. reflexivity.
Defined.

(** ** The frame of the command encoder *)

(** C7. For a 4-bit command type [t] and a 4-bit option [o], [setParam]
    hands the transport, in one write, the eight bytes 0xAA, 0x55, 0x00,
    (t << 4) | o, 0x00, 0x00, c, 0x03, where c is the sum of the first six
    cut to 8 bits: (0xAA + 0x55 + ((t << 4) | o)) & 0xFF. *)
Theorem setParam_frame (t o : byte) (serial : list (list Z)) :
  u8 t < 16 -> u8 o < 16 ->
  setParam t o serial =
    serial ++ [[0xAA; 0x55; 0x00; Z.lor (Z.shiftl (u8 t) 4) (u8 o); 0x00; 0x00;
                Z.land (0xAA + 0x55 + Z.lor (Z.shiftl (u8 t) 4) (u8 o)) 0xFF; 0x03]] /\
  Z.land (0xAA + 0x55 + Z.lor (Z.shiftl (u8 t) 4) (u8 o)) 0xFF
    = (0xAA + 0x55 + 0x00 + Z.lor (Z.shiftl (u8 t) 4) (u8 o) + 0x00 + 0x00) mod 256.
Proof.
  intros Ht Ho. pose proof (u8_range t). pose proof (u8_range o).
  assert (Hk : Z.lor (Z.shiftl (u8 t) 4) (u8 o) = u8 t * 2 ^ 4 + u8 o).
  { rewrite Z.shiftl_mul_pow2 by lia. apply lor_low_bits; [lia |].
    change (2 ^ 4) with 16. lia. }
  change (2 ^ 4) with 16 in Hk.
  assert (Hland : forall a, Z.land a 0xff = a mod 256).
  { intros a. change 0xff with (Z.ones 8). rewrite Z.land_ones by lia. reflexivity. }
  split.
  - unfold setParam, serial_write.
    cbn [replicate insert list_insert lookup_total list_lookup_total].
    unfold to_uchar. rewrite Hland, Hk.
    change (170 mod 256) with 170. change (85 mod 256) with 85.
    change (0 mod 256) with 0. change (3 mod 256) with 3.
    rewrite (Z.mod_small (u8 t * 16 + u8 o)) by lia.
    replace (170 + 85 + 0 + (u8 t * 16 + u8 o) + 0 + 0)
      with (170 + 85 + (u8 t * 16 + u8 o)) by lia.
    reflexivity.
  - rewrite Hland. f_equal. lia.
Qed.

Lemma setParam_frame_witness :
  u8 x03 < 16 /\ u8 x01 < 16 /\
  setParam x03 x01 [] = [[0xAA; 0x55; 0x00; 0x31; 0x00; 0x00; 0x30; 0x03]].
Proof.
  split; [reflexivity |]. split; [reflexivity |].
  destruct (setParam_frame x03 x01 []) as [H _]; [reflexivity | reflexivity |].
  exact H.
Defined.

(** ** Bounds of the payload offset *)

(** C8. After any input, from the initial state: the parser state is
    defined (no access left [data1] or the buffer), the payload offset is
    between 0 and 36 and the buffer has its eighteen words.  While collecting
    the offset is at most 35, the one word written is word [offset / 2], in
    0..17, and after the increment the parser is in AwaitCrcHigh iff the
    offset is 36 and still collecting iff it is below.  In every other phase
    the buffer is left alone and AwaitCrcHigh is not entered. *)
Theorem payload_offset_bounded (bs : list byte) (b : byte) :
  exists s s',
    parser (Z.of_nat (length bs)) bs parser_init = Some s /\
    parser_byte s b = Some s' /\
    0 <= LocalIndex s <= 36 /\ length (data1 s) = 18%nat /\
    (Phase s = CollectingPayload ->
       LocalIndex s <= 35 /\ 0 <= LocalIndex s / 2 <= 17 /\
       LocalIndex s' = LocalIndex s + 1 /\
       (exists v, data1 s' = <[Z.to_nat (LocalIndex s / 2) := v]> (data1 s)) /\
       (Phase s' = AwaitCrcHigh <-> LocalIndex s' = 36) /\
       (Phase s' = CollectingPayload <-> LocalIndex s' < 36)) /\
    (Phase s <> CollectingPayload -> data1 s' = data1 s /\ Phase s' <> AwaitCrcHigh).
Proof.
  rewrite parser_feed.
  destruct (feed_wf bs parser_init wf_init) as (s & Hrun & [Hd Ho] & _ & _ & Hoff).
  specialize (Hoff ltac:(cbn; lia)).
  unfold CollectingPayload, AwaitCrcHigh.
  destruct (Z.eq_dec (Phase s) 2) as [H2 | H2].
  - specialize (Ho H2). destruct (case2_any s b H2 Ho Hd) as [v Hv].
    exists s. eexists. split; [exact Hrun |]. split; [exact Hv |].
    cbn [Phase LocalIndex data1]. split; [exact Hoff |]. split; [exact Hd |].
    split; [| intros H; contradiction].
    intros _. split; [lia |].
    pose proof (Z.div_pos (LocalIndex s) 2 ltac:(lia) ltac:(lia)).
    pose proof (Z.div_lt_upper_bound (LocalIndex s) 2 18 ltac:(lia) ltac:(lia)).
    split; [lia |].
    split; [reflexivity |]. split; [exists v; reflexivity |].
    destruct (Z.eqb_spec (LocalIndex s + 1) 36); split; split; intros; lia.
  - destruct (parser_byte_not_collecting s b H2 Hd) as (s' & Hstep & Hdata & Hph).
    exists s, s'. split; [exact Hrun |]. split; [exact Hstep |].
    split; [exact Hoff |]. split; [exact Hd |].
    split; [intros H; contradiction | intros _; split; assumption].
Qed.

(** ** Resynchronisation *)

(** C9, as the specification has it, fails after a frame whose second magic
    byte is damaged: the parser waits in AwaitMagic2, and on a continuation
    of 42 zero bytes it is in AwaitMagic1 after none of the first 42. *)
Lemma resync_counterexample :
  ~ exists (k : nat) (s' : state),
      (k <= 42)%nat /\
      (feed parser_init bad_magic_frame ≫= fun s => feed s (take k (replicate 42 x00)))
        = Some s' /\
      Phase s' = AwaitMagic1.
Proof.
  intros (k & s' & _ & Hrun & HP).
  assert (H1 : feed parser_init bad_magic_frame = Some after_magic1)
    by (vm_compute; reflexivity).
  rewrite H1 in Hrun. cbn [mbind option_bind] in Hrun.
  rewrite feed_magic2_junk in Hrun.
  - injection Hrun as <-. discriminate HP.
  - reflexivity.
  - apply Forall_take, Forall_replicate. discriminate.
Qed.

(** C9, amended. After a frame with the magic prefix intact and a checksum
    that does not agree, met in AwaitMagic1, the parser is in AwaitMagic1 as
    the last byte of the frame is consumed and has written no record; so for
    every continuation it is in AwaitMagic1 within at most 42 (indeed 0)
    further bytes with no record written over them.  From CollectingPayload,
    AwaitCrcHigh or AwaitCrcLow it is back in AwaitMagic1 within at most 38
    further bytes, whatever they are. *)
Theorem resync_after_bad_checksum
    (s t : state) (p cont rest : list byte) (c1 c2 : byte) :
  Phase s = AwaitMagic1 -> length (data1 s) = 18%nat -> length p = 36%nat ->
  checksum_word c1 c2 <> byte_sum (xaa :: x55 :: p) mod 65536 ->
  wf t -> CollectingPayload <= Phase t <= AwaitCrcLow -> (38 <= length rest)%nat ->
  (exists s',
     parser 40 (frame p c1 c2) s = Some s' /\ Phase s' = AwaitMagic1 /\
     out_gs s' = out_gs s /\ out_eeg s' = out_eeg s /\
     exists (k : nat) (s'' : state),
       (k <= 42)%nat /\ feed s' (take k cont) = Some s'' /\ Phase s'' = AwaitMagic1 /\
       out_gs s'' = out_gs s' /\ out_eeg s'' = out_eeg s') /\
  (exists (k : nat) (t' : state),
     (k <= 38)%nat /\ feed t (take k rest) = Some t' /\ Phase t' = AwaitMagic1).
Proof.
  intros HP Hd Hp Hc Ht Hph Hlen. split.
  - rewrite parser_frame, (frame_invalid s p c1 c2 HP Hd Hp Hc) by exact Hp.
    eexists. split; [reflexivity |]. cbn [Phase out_gs out_eeg]. repeat split.
    exists 0%nat. eexists. rewrite take_0. cbn [feed]. split; [lia |].
    split; [reflexivity |]. repeat split.
  - apply back_to_magic1; assumption.
Qed.

Lemma resync_after_bad_checksum_witness :
  Phase parser_init = AwaitMagic1 /\ length (data1 parser_init) = 18%nat /\
  length (replicate 36 x01) = 36%nat /\
  checksum_word x01 xdc <> byte_sum (xaa :: x55 :: replicate 36 x01) mod 65536 /\
  wf after_magic2 /\ CollectingPayload <= Phase after_magic2 <= AwaitCrcLow /\
  (38 <= length (replicate 42 x00))%nat /\
  (exists s', parser 40 corrupted_frame parser_init = Some s' /\ Phase s' = AwaitMagic1) /\
  (exists (k : nat) (t' : state),
     (k <= 38)%nat /\ feed after_magic2 (take k (replicate 42 x00)) = Some t' /\
     Phase t' = AwaitMagic1).
Proof.
  assert (Hc : checksum_word x01 xdc <> byte_sum (xaa :: x55 :: replicate 36 x01) mod 65536)
    by (vm_compute; discriminate).
  assert (Hw : wf after_magic2) by (split; [reflexivity | cbn; lia]).
  assert (Hph : CollectingPayload <= Phase after_magic2 <= AwaitCrcLow)
    by (vm_compute; split; discriminate).
  assert (Hlen : (38 <= length (replicate 42 x00))%nat) by (cbn; lia).
  split; [reflexivity |]. split; [reflexivity |]. split; [reflexivity |].
  split; [exact Hc |]. split; [exact Hw |]. split; [exact Hph |]. split; [exact Hlen |].
  destruct (resync_after_bad_checksum parser_init after_magic2 (replicate 36 x01)
              happy_frame (replicate 42 x00) x01 xdc)
    as ((s' & Hrun & Hs' & _) & Hback);
    [reflexivity | reflexivity | reflexivity | exact Hc | exact Hw | exact Hph | exact Hlen |].
  split; [exists s'; split; assumption | exact Hback].
Defined.

(** ** Bytes met while waiting for 0x55 *)

(** C10. A byte other than 0x55 met in AwaitMagic2 leaves every field of the
    parser state as it was.  So 0xAA, any bytes none of which is 0x55, then
    0x55, 36 payload bytes and the checksum 0xAA + 0x55 + payload sum
    (mod 2^16) are parsed exactly as the frame without the bytes in between:
    the packet is validated and its records emitted. *)
Theorem magic2_junk_ignored (s : state) (junk p : list byte) (c1 c2 : byte) :
  Phase s = AwaitMagic1 -> length (data1 s) = 18%nat ->
  Forall (fun b => b <> x55) junk -> length p = 36%nat ->
  checksum_word c1 c2 = (0xAA + 0x55 + byte_sum p) mod 65536 ->
  (forall (t : state) (b : byte),
      Phase t = AwaitMagic2 -> b <> x55 -> parser_byte t b = Some t) /\
  parser (Z.of_nat (length (xaa :: junk ++ x55 :: p ++ [c1; c2])))
         (xaa :: junk ++ x55 :: p ++ [c1; c2]) s
    = parser 40 (frame p c1 c2) s /\
  parser 40 (frame p c1 c2) s =
    Some (State AwaitMagic1 (0xAA + 0x55 + byte_sum p) 1 36 (checksum_word c1 c2)
                (be_words p) (to_ushort (packet s + 1))
                (out_gs s ++ gs_of (to_ushort (packet s + 1), be_words p))
                (out_eeg s ++ [eeg_of (to_ushort (packet s + 1), be_words p)])
                (std_out s)).
Proof.
  intros HP Hd Hj Hp Hc.
  assert (Hc' : checksum_word c1 c2 = byte_sum (xaa :: x55 :: p) mod 65536).
  { rewrite frame_sum by exact Hp. rewrite Hc.
    pose proof (byte_sum_bounds p). apply Z.mod_small. lia. }
  split; [| split].
  - intros t b Ht Hb. apply case1_other; [exact Ht |].
    intros E. apply Hb, u8_inj, E.
  - rewrite parser_feed, parser_frame by exact Hp. unfold frame. cbn [feed].
    rewrite (case0_magic s HP). cbn [mbind option_bind].
    rewrite feed_app, feed_magic2_junk by (reflexivity || exact Hj).
    reflexivity.
  - rewrite parser_frame, (frame_valid s p c1 c2 HP Hd Hp Hc') by exact Hp.
    rewrite Hc', frame_sum by exact Hp. reflexivity.
Qed.

Lemma magic2_junk_ignored_witness :
  Phase parser_init = AwaitMagic1 /\ length (data1 parser_init) = 18%nat /\
  Forall (fun b => b <> x55) [x56; xaa] /\ length (replicate 36 x01) = 36%nat /\
  checksum_word x01 x23 = (0xAA + 0x55 + byte_sum (replicate 36 x01)) mod 65536 /\
  parser 42 (xaa :: [x56; xaa] ++ x55 :: replicate 36 x01 ++ [x01; x23]) parser_init
    = parser 40 happy_frame parser_init.
Proof.
  assert (Hj : Forall (fun b => b <> x55) [x56; xaa])
    by (repeat constructor; discriminate).
  split; [reflexivity |]. split; [reflexivity |]. split; [exact Hj |].
  split; [reflexivity |]. split; [reflexivity |].
  destruct (magic2_junk_ignored parser_init [x56; xaa] (replicate 36 x01) x01 x23)
    as (_ & H & _);
    [reflexivity | reflexivity | exact Hj | reflexivity | reflexivity |].
  exact H.
Defined.

(** * Further properties of the parser *)

(** ** The buffer and its size *)

Lemma parser_loop_feed_rest (bs pre rest : list byte) (s : state) :
  parser_loop (length bs) (Z.of_nat (length pre)) (pre ++ bs ++ rest) s = feed s bs.
Proof.
  revert pre s. induction bs as [| b bs IH]; intros pre s; [reflexivity |].
  cbn [length parser_loop feed app].
  rewrite Nat2Z.id, list_lookup_middle by reflexivity. cbn [mbind option_bind].
  destruct (parser_byte s b) as [s' |]; [| reflexivity]. cbn [mbind option_bind].
  specialize (IH (pre ++ [b]) s').
  rewrite <- app_assoc, length_app in IH. cbn [length app] in IH.
  replace (Z.of_nat (length pre) + 1) with (Z.of_nat (length pre + 1)) by lia.
  exact IH.
Qed.

(** [parser] consumes the first [size] bytes of the buffer and nothing else. *)
Lemma parser_take (size : Z) (buffer : list byte) (s : state) :
  size <= Z.of_nat (length buffer) ->
  parser size buffer s = feed s (take (Z.to_nat size) buffer).
Proof.
  intros H. unfold parser.
  rewrite <- (take_drop (Z.to_nat size) buffer) at 1.
  pose proof (parser_loop_feed_rest (take (Z.to_nat size) buffer) []
                (drop (Z.to_nat size) buffer) s) as E.
  rewrite length_take_le in E by lia. exact E.
Qed.

(** What lies in the buffer past [size] has no effect, and a [size] of zero
    or below leaves the parser as it is. *)
Theorem parser_reads_size_bytes (size : Z) (bs rest rest' : list byte) (s : state) :
  size <= Z.of_nat (length bs) ->
  parser size (bs ++ rest) s = parser size (bs ++ rest') s /\
  parser size (bs ++ rest) s = feed s (take (Z.to_nat size) bs) /\
  (size <= 0 -> parser size (bs ++ rest) s = Some s).
Proof.
  intros H.
  assert (E : forall r, parser size (bs ++ r) s = feed s (take (Z.to_nat size) bs)).
  { intros r. rewrite parser_take by (rewrite length_app; lia).
    rewrite take_app_le by lia. reflexivity. }
  split; [rewrite !E; reflexivity |]. split; [apply E |].
  intros H0. rewrite E. replace (Z.to_nat size) with 0%nat by lia. reflexivity.
Qed.

Lemma parser_reads_size_bytes_witness :
  2 <= Z.of_nat (length [xaa; x55; x01]) /\
  parser 2 ([xaa; x55; x01] ++ [xff]) parser_init = parser 2 ([xaa; x55; x01] ++ []) parser_init.
Proof.
  split; [cbn; lia |].
  destruct (parser_reads_size_bytes 2 [xaa; x55; x01] [xff] [] parser_init) as [H _];
    [cbn; lia | exact H].
Defined.

(** Calling [parser] chunk by chunk is calling it once on the whole input,
    however the input is cut. *)
Theorem parser_chunks_concat (chunks : list (list byte)) (s : state) :
  parser_chunks chunks s = parser (Z.of_nat (length (concat chunks))) (concat chunks) s.
Proof.
  rewrite parser_feed. revert s.
  induction chunks as [| c chunks IH]; intros s; [reflexivity |].
  cbn [parser_chunks concat]. rewrite parser_feed, feed_app.
  destruct (feed s c) as [s' |]; [| reflexivity]. cbn [mbind option_bind]. apply IH.
Qed.

(** ** Bytes that are skipped *)

Lemma feed_magic1_junk (s : state) (junk : list byte) :
  Phase s = 0 -> Forall (fun b => b <> xaa) junk -> feed s junk = Some s.
Proof.
  intros HP Hj. induction Hj as [| b junk Hb _ IH]; [reflexivity |].
  cbn [feed]. rewrite case0_other; [exact IH | exact HP |].
  intros E. apply Hb. apply u8_inj. exact E.
Qed.

(** In AwaitMagic1 bytes other than 0xAA are passed over: the input after
    them is parsed as if it came first. *)
Theorem magic1_skips_until_0xAA (s : state) (junk rest : list byte) :
  Phase s = AwaitMagic1 -> Forall (fun b => b <> xaa) junk ->
  parser (Z.of_nat (length (junk ++ rest))) (junk ++ rest) s
    = parser (Z.of_nat (length rest)) rest s /\
  parser (Z.of_nat (length junk)) junk s = Some s.
Proof.
  intros HP Hj. rewrite !parser_feed, feed_app, (feed_magic1_junk s junk HP Hj).
  split; reflexivity.
Qed.

Lemma magic1_skips_until_0xAA_witness :
  Phase parser_init = AwaitMagic1 /\ Forall (fun b => b <> xaa) [xff; x55; x00] /\
  parser 43 ([xff; x55; x00] ++ happy_frame) parser_init = parser 40 happy_frame parser_init.
Proof.
  assert (Hj : Forall (fun b => b <> xaa) [xff; x55; x00])
    by (repeat constructor; discriminate).
  split; [reflexivity |]. split; [exact Hj |].
  destruct (magic1_skips_until_0xAA parser_init [xff; x55; x00] happy_frame) as [H _];
    [reflexivity | exact Hj |].
  exact H.
Defined.

(** ** Where output happens *)

(** Only a byte met in AwaitCrcLow writes anything or moves the packet
    counter, and it does exactly one of two things: it appends one EEG call
    and counts the packet, leaving stdout alone, or it appends one report to
    stdout and leaves the counter and both streams alone. *)
Theorem output_only_at_crc_low (s s' : state) (b : byte) :
  parser_byte s b = Some s' ->
  (Phase s <> AwaitCrcLow ->
     out_gs s' = out_gs s /\ out_eeg s' = out_eeg s /\ std_out s' = std_out s /\
     packet s' = packet s) /\
  (Phase s = AwaitCrcLow ->
     Phase s' = AwaitMagic1 /\ data1 s' = data1 s /\
     ((exists e, out_eeg s' = out_eeg s ++ [e] /\ std_out s' = std_out s /\
                 packet s' = to_ushort (packet s + 1) /\ RdyFlg s' = 1) \/
      (out_eeg s' = out_eeg s /\ out_gs s' = out_gs s /\
       std_out s' = std_out s ++ [error_call (packet s)] /\ packet s' = packet s))).
Proof.
  unfold AwaitCrcLow, AwaitMagic1. intros Hstep. split.
  - intros H4. revert Hstep. unfold parser_byte.
    destruct (Phase s =? 0); [destruct (u8 b =? 0xAA); intros [= <-]; auto |].
    destruct (Phase s =? 1); [destruct (u8 b =? 0x55); intros [= <-]; auto |].
    destruct (Phase s =? 2).
    { destruct (if Z.rem (LocalIndex s) 2 =? 0 then _ else _) as [d |];
        cbn [mbind option_bind]; [intros [= <-]; auto | discriminate]. }
    destruct (Phase s =? 3); [intros [= <-]; auto |].
    destruct (Z.eqb_spec (Phase s) 4); [contradiction | intros [= <-]; auto].
  - intros H4. revert Hstep. unfold parser_byte. rewrite H4. cbn [Z.eqb Pos.eqb].
    destruct (to_ushort (MsgCRC s + u8 b) =? Crc s).
    + destruct (data1_get (data1 s) 16) as [w16 |]; cbn [mbind option_bind]; [| discriminate].
      destruct (if negb (w16 =? 255) then _ else _) as [gs |];
        cbn [mbind option_bind]; [| discriminate].
      destruct (data1_get (data1 s) 0) as [w0 |]; cbn [mbind option_bind]; [| discriminate].
      destruct (data1_get (data1 s) 9) as [w9 |]; cbn [mbind option_bind]; [| discriminate].
      intros [= <-]. cbn [Phase data1 out_eeg std_out packet RdyFlg].
      split; [reflexivity |]. split; [reflexivity |]. left. eexists. repeat split.
    + intros [= <-]. cbn [Phase data1 out_eeg out_gs std_out packet].
      split; [reflexivity |]. split; [reflexivity |]. right. repeat split.
Qed.

Lemma output_only_at_crc_low_witness :
  parser_byte (State 4 0x123 0 36 0x100 (replicate 18 257) 7 [] [] []) x24 =
    Some (State 0 0x123 0 36 0x124 (replicate 18 257) 7 [] [] [error_call 7]) /\
  std_out (State 0 0x123 0 36 0x124 (replicate 18 257) 7 [] [] [error_call 7]) =
    [] ++ [error_call 7].
Proof.
  assert (H : parser_byte (State 4 0x123 0 36 0x100 (replicate 18 257) 7 [] [] []) x24 =
              Some (State 0 0x123 0 36 0x124 (replicate 18 257) 7 [] [] [error_call 7]))
    by (vm_compute; reflexivity).
  split; [exact H |].
  destruct (output_only_at_crc_low _ _ _ H) as [_ H4].
  destruct (H4 eq_refl) as (_ & _ & [(e & _ & _ & Hpk & _) | (_ & _ & Hstd & _)]).
  - vm_compute in Hpk. discriminate Hpk.
  - exact Hstd.
Defined.

(** ** Counting packets *)

Lemma to_ushort_bounds (z : Z) : 0 <= to_ushort z < 65536.
Proof. unfold to_ushort. apply Z.mod_pos_bound. lia. Qed.

Lemma frame_pos_bounds (s : state) : wf s -> 0 <= frame_pos s <= 39.
Proof.
  intros [_ Ho]. unfold frame_pos.
  destruct (Z.eqb_spec (Phase s) 1); [lia |].
  destruct (Z.eqb_spec (Phase s) 2); [specialize (Ho ltac:(assumption)); lia |].
  destruct (Z.eqb_spec (Phase s) 3); [lia |].
  destruct (Z.eqb_spec (Phase s) 4); lia.
Qed.

Ltac pos_of H := unfold frame_pos; rewrite H; cbn [Z.eqb Pos.eqb].
Ltac pos_now := unfold frame_pos; cbn [Phase LocalIndex Z.eqb Pos.eqb].

(** One byte: the packet counter moves with a validation only, and the
    parser advances by at most one place in the frame, starting over at a
    validation. *)
Lemma parser_byte_progress (s : state) (b : byte) :
  wf s ->
  exists s',
    parser_byte s b = Some s' /\
    packet s' = (if validates s b then to_ushort (packet s + 1) else packet s) /\
    frame_pos s' + (if validates s b then 40 else 0) <= frame_pos s + 1.
Proof.
  intros [Hd Ho].
  destruct (phase_cases s) as [H0 | [H1 | [H2 | [H3 | [H4 | (H0 & H1 & H2 & H3 & H4)]]]]].
  - rewrite (case0_any s b H0), validates_false by lia.
    eexists. split; [reflexivity |]. pos_of H0.
    destruct (u8 b =? 0xAA); [pos_now | pos_of H0]; cbn [packet]; split; auto; lia.
  - rewrite (case1_any s b H1), validates_false by lia.
    eexists. split; [reflexivity |]. pos_of H1.
    destruct (u8 b =? 0x55); [pos_now | pos_of H1]; cbn [packet]; split; auto; lia.
  - specialize (Ho H2). destruct (case2_any s b H2 Ho Hd) as [v Hv].
    rewrite Hv, validates_false by lia.
    eexists. split; [reflexivity |]. pos_of H2. cbn [packet]. split; [reflexivity |].
    destruct (Z.eqb_spec (LocalIndex s + 1) 36); pos_now; lia.
  - rewrite (case3 s b H3), validates_false by lia.
    eexists. split; [reflexivity |]. pos_of H3. pos_now. cbn [packet]. split; auto; lia.
  - rewrite (case4_any s b H4 Hd). eexists. split; [reflexivity |]. pos_of H4.
    destruct (validates s b); pos_now; cbn [packet]; split; auto; lia.
  - rewrite (case_other s b), validates_false by assumption.
    eexists. split; [reflexivity |]. split; [reflexivity |]. lia.
Qed.

Lemma seq_shift_map (f : nat -> Z) (m : nat) :
  f <$> seq 2 m = (fun i => f (S i)) <$> seq 1 m.
Proof.
  change 2%nat with (S 1). generalize 1%nat.
  induction m as [| m IH]; intros k; [reflexivity |].
  cbn [seq fmap list_fmap]. f_equal. apply IH.
Qed.

(** Counter, successive counter values and rate over any input. *)
Lemma feed_counts (bs : list byte) :
  forall s : state,
    wf s -> in_ushort (packet s) ->
    exists s',
      feed s bs = Some s' /\ wf s' /\
      packet s' = to_ushort (packet s + Z.of_nat (length (validated s bs))) /\
      (validated s bs).*1 =
        (fun i => to_ushort (packet s + Z.of_nat i)) <$> seq 1 (length (validated s bs)) /\
      40 * Z.of_nat (length (validated s bs)) <= frame_pos s + Z.of_nat (length bs).
Proof.
  induction bs as [| b bs IH]; intros s Hs Hpk.
  - exists s. cbn [feed validated length]. split; [reflexivity |]. split; [exact Hs |].
    rewrite Z.add_0_r, to_ushort_small by exact Hpk.
    pose proof (frame_pos_bounds s Hs). repeat split; lia.
  - destruct (parser_byte_progress s b Hs) as (s1 & Hstep & Hp1 & Hpos).
    destruct (parser_byte_wf s b Hs) as (s1' & Hstep' & Hs1 & _).
    rewrite Hstep in Hstep'. injection Hstep' as <-.
    assert (Hpk1 : in_ushort (packet s1)).
    { rewrite Hp1. destruct (validates s b); [apply to_ushort_bounds | exact Hpk]. }
    destruct (IH s1 Hs1 Hpk1) as (s' & Hrun & Hs' & Hp' & Hcnt & Hrate).
    exists s'. cbn [feed validated]. rewrite Hstep. cbn [mbind option_bind].
    split; [exact Hrun |]. split; [exact Hs' |]. rewrite Hp1 in Hp', Hcnt.
    destruct (validates s b); cbn [app length].
    + rewrite fmap_cons, Hcnt, Hp'. cbn [fst seq]. rewrite fmap_cons, to_ushort_add_l.
      split; [f_equal; lia |]. split; [| lia].
      change (Z.of_nat 1) with 1. f_equal. rewrite seq_shift_map.
      apply list_fmap_ext. intros i x _. rewrite to_ushort_add_l. f_equal. lia.
    + rewrite Hcnt, Hp'. repeat split; lia.
Qed.

(** The packet counter is the count of validations, modulo 2^16, and the
    validated packets carry the consecutive values it passes through; no
    packet is validated in less than the 40 bytes of a frame. *)
Theorem packet_counts_validations (s : state) (bs : list byte) :
  wf s -> in_ushort (packet s) ->
  exists s',
    parser (Z.of_nat (length bs)) bs s = Some s' /\
    packet s' = to_ushort (packet s + Z.of_nat (length (validated s bs))) /\
    (validated s bs).*1 =
      (fun i => to_ushort (packet s + Z.of_nat i)) <$> seq 1 (length (validated s bs)) /\
    40 * Z.of_nat (length (validated s bs)) <= frame_pos s + Z.of_nat (length bs).
Proof.
  intros Hs Hpk. rewrite parser_feed.
  destruct (feed_counts bs s Hs Hpk) as (s' & Hrun & _ & Hp & Hcnt & Hrate).
  exists s'. auto.
Qed.

Lemma packet_counts_validations_witness :
  wf (State 0 0 0 0 0 (replicate 18 0) 65535 [] [] []) /\ in_ushort 65535 /\
  packet <$> parser 40 happy_frame (State 0 0 0 0 0 (replicate 18 0) 65535 [] [] []) = Some 0.
Proof.
  assert (Hw : wf (State 0 0 0 0 0 (replicate 18 0) 65535 [] [] []))
    by (split; [reflexivity | cbn; lia]).
  assert (Hr : in_ushort 65535) by (unfold in_ushort; lia).
  split; [exact Hw |]. split; [exact Hr |].
  destruct (packet_counts_validations (State 0 0 0 0 0 (replicate 18 0) 65535 [] [] [])
              happy_frame Hw Hr) as (s' & Hrun & Hpk & _).
  change (Z.of_nat (length happy_frame)) with 40 in Hrun. rewrite Hrun.
  cbn [fmap option_fmap option_map]. rewrite Hpk. vm_compute. reflexivity.
Defined.

(** ** Inside a frame *)

(** Payload bytes collected from any offset, short of or up to the end. *)
Lemma feed_payload_prefix (q : list byte) :
  forall s : state,
    Phase s = 2 -> 0 <= LocalIndex s < 36 ->
    LocalIndex s + Z.of_nat (length q) <= 36 ->
    length (data1 s) = 18%nat -> in_ushort (Crc s) ->
    exists d,
      length d = 18%nat /\
      feed s q =
        Some (State (if LocalIndex s + Z.of_nat (length q) =? 36 then 3 else 2)
                    (to_ushort (Crc s + byte_sum q)) (RdyFlg s)
                    (LocalIndex s + Z.of_nat (length q)) (MsgCRC s) d
                    (packet s) (out_gs s) (out_eeg s) (std_out s)).
Proof.
  induction q as [| b q IH]; intros s HP Ho Hlen Hd Hc.
  - exists (data1 s). split; [exact Hd |]. cbn [feed length byte_sum foldr].
    rewrite !Z.add_0_r, to_ushort_small by exact Hc.
    destruct (Z.eqb_spec (LocalIndex s) 36); [lia |].
    rewrite <- HP. destruct s; reflexivity.
  - cbn [length] in Hlen. destruct (case2_any s b HP Ho Hd) as [v Hv].
    cbn [feed]. rewrite Hv. cbn [mbind option_bind]. rewrite byte_sum_cons.
    destruct (Z.eqb_spec (LocalIndex s + 1) 36) as [E | E].
    + destruct q; [| cbn [length] in Hlen; lia].
      exists (<[Z.to_nat (LocalIndex s / 2) := v]> (data1 s)).
      split; [rewrite length_insert; exact Hd |]. cbn [feed length].
      change (byte_sum []) with 0. rewrite Z.add_0_r.
      destruct (Z.eqb_spec (LocalIndex s + Z.of_nat 1) 36); [| lia].
      reflexivity.
    + destruct (IH (State 2 (to_ushort (Crc s + u8 b)) (RdyFlg s) (LocalIndex s + 1)
                         (MsgCRC s) (<[Z.to_nat (LocalIndex s / 2) := v]> (data1 s))
                         (packet s) (out_gs s) (out_eeg s) (std_out s))
                  eq_refl ltac:(cbn [LocalIndex]; lia) ltac:(cbn [LocalIndex]; lia)
                  ltac:(cbn [data1]; rewrite length_insert; exact Hd)
                  (to_ushort_bounds _))
        as (d & Hdl & Hrun).
      exists d. split; [exact Hdl |]. rewrite Hrun.
      cbn [Crc RdyFlg LocalIndex MsgCRC packet out_gs out_eeg std_out length].
      rewrite to_ushort_add_l.
      replace (LocalIndex s + 1 + Z.of_nat (length q))
        with (LocalIndex s + Z.of_nat (S (length q))) by lia.
      replace (Crc s + u8 b + byte_sum q) with (Crc s + (u8 b + byte_sum q)) by lia.
      reflexivity.
Qed.

Lemma in_ushort_255 : in_ushort 255.
Proof. unfold in_ushort. lia. Qed.

(** The phase after [n] bytes of a frame. *)
Lemma frame_take (p : list byte) (c1 c2 : byte) (m : nat) :
  length p = 36%nat -> (m <= 36)%nat ->
  take (S (S m)) (frame p c1 c2) = xaa :: x55 :: take m p.
Proof.
  intros Hp Hm. unfold frame. cbn [take]. rewrite take_app_le by lia. reflexivity.
Qed.

(** Until its last byte has come a frame leaves no trace outside the parser:
    called on fewer than 40 bytes of it, [parser] writes nothing and does not
    move the packet counter; it sits in the phase the count of bytes gives,
    and while collecting the accumulator is the plain sum of the bytes
    consumed and the offset is their number past the prefix. *)
Theorem partial_frame_is_silent (s : state) (p : list byte) (c1 c2 : byte) (n : nat) :
  Phase s = AwaitMagic1 -> length (data1 s) = 18%nat -> length p = 36%nat ->
  (n < 40)%nat ->
  exists s',
    parser (Z.of_nat n) (frame p c1 c2) s = Some s' /\
    out_gs s' = out_gs s /\ out_eeg s' = out_eeg s /\ std_out s' = std_out s /\
    packet s' = packet s /\
    Phase s' = (if (n =? 0)%nat then AwaitMagic1 else if (n =? 1)%nat then AwaitMagic2
                else if (n <? 38)%nat then CollectingPayload
                else if (n =? 38)%nat then AwaitCrcHigh else AwaitCrcLow) /\
    ((2 <= n <= 38)%nat ->
       Crc s' = byte_sum (take n (frame p c1 c2)) /\ LocalIndex s' = Z.of_nat n - 2).
Proof.
  intros HP Hd Hp Hn. change (Phase s = 0) in HP.
  rewrite parser_take by (rewrite frame_length by exact Hp; lia). rewrite Nat2Z.id.
  destruct n as [| [| m]].
  - exists s. cbn [take feed Nat.eqb]. repeat split; try assumption; lia.
  - unfold frame. cbn [take feed].
    rewrite (case0_magic s HP). cbn [mbind option_bind].
    eexists. split; [reflexivity |]. cbn [Nat.eqb]. repeat split; lia.
  - assert (Hpre : exists d,
               feed s [xaa; x55] =
                 Some (State 2 255 0 0 (MsgCRC s) d (packet s) (out_gs s) (out_eeg s)
                             (std_out s)) /\ length d = 18%nat).
    { exists (data1 s). cbn [feed]. rewrite (case0_magic s HP). cbn [mbind option_bind].
      rewrite case1_magic by reflexivity. split; [reflexivity | exact Hd]. }
    destruct Hpre as (d0 & Hpre & Hd0).
    destruct (Nat.le_gt_cases m 36) as [Hm | Hm].
    + rewrite (frame_take p c1 c2 m Hp Hm).
      change (xaa :: x55 :: take m p) with ([xaa; x55] ++ take m p).
      rewrite feed_app, Hpre. cbn [mbind option_bind].
      destruct (feed_payload_prefix (take m p)
                  (State 2 255 0 0 (MsgCRC s) d0 (packet s) (out_gs s) (out_eeg s) (std_out s))
                  eq_refl ltac:(cbn [LocalIndex]; lia)
                  ltac:(cbn [LocalIndex]; rewrite length_take_le; lia) Hd0 in_ushort_255)
        as (d & Hdl & Hrun).
      rewrite Hrun. rewrite length_take_le by lia.
      eexists. split; [reflexivity |].
      cbn [out_gs out_eeg std_out packet Phase Crc LocalIndex Nat.eqb].
      pose proof (byte_sum_bounds (take m p)) as Hb. rewrite length_take_le in Hb by lia.
      rewrite to_ushort_small by lia. unfold CollectingPayload, AwaitCrcHigh.
      change (byte_sum ([xaa; x55] ++ take m p)) with (170 + (85 + byte_sum (take m p))).
      destruct (Z.eqb_spec (0 + Z.of_nat m) 36), (Nat.ltb_spec (S (S m)) 38),
        (Nat.eqb_spec m 36); try lia; repeat split; lia.
    + assert (m = 37)%nat as -> by lia.
      assert (Ht : take 39 (frame p c1 c2) = ([xaa; x55] ++ p) ++ [c1]).
      { unfold frame. cbn [take app].
        change (take 37 (p ++ [c1; c2])) with (take (36 + 1) (p ++ [c1; c2])).
        rewrite (take_app_add' p [c1; c2] 36 1) by lia. reflexivity. }
      rewrite Ht, !feed_app, Hpre. cbn [mbind option_bind].
      destruct (feed_payload_prefix p
                  (State 2 255 0 0 (MsgCRC s) d0 (packet s) (out_gs s) (out_eeg s) (std_out s))
                  eq_refl ltac:(cbn [LocalIndex]; lia)
                  ltac:(cbn [LocalIndex]; lia) Hd0 in_ushort_255)
        as (d & Hdl & Hrun).
      rewrite Hrun, Hp. cbn [mbind option_bind Z.eqb Z.add Z.of_nat Pos.of_succ_nat Pos.succ Pos.eqb].
      cbn [feed]. rewrite case3 by reflexivity. cbn [mbind option_bind].
      eexists. split; [reflexivity |].
      cbn [out_gs out_eeg std_out packet Phase]. repeat split; lia.
Qed.

Lemma partial_frame_is_silent_witness :
  Phase parser_init = AwaitMagic1 /\ length (data1 parser_init) = 18%nat /\
  length (replicate 36 x01) = 36%nat /\ (39 < 40)%nat /\
  exists s', parser 39 happy_frame parser_init = Some s' /\ out_eeg s' = [] /\
             Phase s' = AwaitCrcLow.
Proof.
  split; [reflexivity |]. split; [reflexivity |]. split; [reflexivity |]. split; [lia |].
  destruct (partial_frame_is_silent parser_init (replicate 36 x01) x01 x23 39)
    as (s' & Hrun & _ & Heeg & _ & _ & Hph & _);
    [reflexivity | reflexivity | reflexivity | lia |].
  exists s'. split; [exact Hrun |]. split; [exact Heeg | exact Hph].
Defined.

(** ** Frames one after another *)

Lemma validated_app (xs ys : list byte) :
  forall s : state,
    validated s (xs ++ ys) =
      validated s xs ++ match feed s xs with Some s' => validated s' ys | None => [] end.
Proof.
  induction xs as [| x xs IH]; intros s; [reflexivity |].
  cbn [app validated feed]. destruct (parser_byte s x) as [s1 |]; [| reflexivity].
  cbn [mbind option_bind]. rewrite IH, app_assoc. reflexivity.
Qed.

(** A frame up to its first checksum byte. *)
Lemma feed_frame_39 (s : state) (p : list byte) (c1 : byte) :
  Phase s = 0 -> length (data1 s) = 18%nat -> length p = 36%nat ->
  feed s (xaa :: x55 :: p ++ [c1]) =
    Some (State 4 (0xAA + 0x55 + byte_sum p) 0 36 (256 * u8 c1) (be_words p)
                (packet s) (out_gs s) (out_eeg s) (std_out s)).
Proof.
  intros HP Hd Hp. cbn [feed].
  rewrite case0_magic by exact HP. cbn [mbind option_bind].
  rewrite case1_magic by reflexivity. cbn [mbind option_bind].
  cbn [Crc RdyFlg LocalIndex MsgCRC data1 packet out_gs out_eeg std_out].
  rewrite feed_app.
  rewrite (feed_words p 0 18); cbn [Phase LocalIndex data1]; try reflexivity; try lia;
    try assumption.
  cbn [mbind option_bind Crc RdyFlg LocalIndex MsgCRC data1 packet out_gs out_eeg std_out].
  rewrite take_0, drop_ge, app_nil_r by lia. cbn [app feed Nat.eqb Nat.add].
  rewrite case3 by reflexivity. cbn [mbind option_bind].
  cbn [Crc RdyFlg LocalIndex MsgCRC data1 packet out_gs out_eeg std_out].
  pose proof (byte_sum_bounds p). change (to_ushort (170 + 85)) with 255.
  rewrite to_ushort_small by lia. reflexivity.
Qed.

Lemma frame_ok_spec (p : list byte) (c1 c2 : byte) :
  frame_ok (p, c1, c2) = true <->
  checksum_word c1 c2 = byte_sum (xaa :: x55 :: p) mod 65536.
Proof. unfold frame_ok. cbn [fst snd]. apply Z.eqb_eq. Qed.

(** The packets a whole frame validates: itself, or none. *)
Lemma validated_frame (s : state) (p : list byte) (c1 c2 : byte) :
  Phase s = 0 -> length (data1 s) = 18%nat -> length p = 36%nat ->
  validated s (frame p c1 c2) =
    if frame_ok (p, c1, c2) then [(to_ushort (packet s + 1), be_words p)] else [].
Proof.
  intros HP Hd Hp.
  assert (Hw : wf s) by (split; [exact Hd | intros H; rewrite HP in H; discriminate]).
  unfold frame.
  replace (xaa :: x55 :: p ++ [c1; c2]) with ((xaa :: x55 :: p ++ [c1]) ++ [c2])
    by (cbn [app]; rewrite <- app_assoc; reflexivity).
  rewrite validated_app, (feed_frame_39 s p c1 HP Hd Hp).
  destruct (feed_wf (xaa :: x55 :: p ++ [c1]) s Hw) as (s39 & Hrun & _ & _ & Heeg & _).
  rewrite (feed_frame_39 s p c1 HP Hd Hp) in Hrun. injection Hrun as <-.
  cbn [out_eeg] in Heeg.
  assert (Hnil : validated s (xaa :: x55 :: p ++ [c1]) = []).
  { rewrite <- (app_nil_r (out_eeg s)) in Heeg at 1. apply app_inv_head in Heeg.
    symmetry in Heeg. apply map_eq_nil in Heeg. exact Heeg. }
  rewrite Hnil. cbn [app validated].
  pose proof (be_words_length p 18 ltac:(lia)) as Hbw.
  rewrite case4_any by (reflexivity || exact Hbw).
  rewrite app_nil_r. cbn [packet data1].
  replace (validates _ c2) with (frame_ok (p, c1, c2)); [reflexivity |].
  unfold validates, frame_ok. cbn [Phase MsgCRC Crc fst snd Z.eqb Pos.eqb andb].
  rewrite checksum_word_eq, frame_sum by exact Hp.
  pose proof (u8_range c1). pose proof (u8_range c2).
  rewrite to_ushort_small by lia. reflexivity.
Qed.

(** Frames that follow one another, each with its prefix and 36 payload
    bytes, whatever their checksums: the parser is back in AwaitMagic1 after
    the last, it has validated exactly those whose checksum agrees, in order
    and with their own words, and has reported each of the others once.  A
    frame that fails costs no frame after it. *)
Theorem frames_in_sequence (fs : list (list byte * byte * byte)) (s : state) :
  Phase s = AwaitMagic1 -> length (data1 s) = 18%nat ->
  Forall (fun f => length f.1.1 = 36%nat) fs ->
  exists s',
    parser (Z.of_nat (length (concat (frame_of <$> fs)))) (concat (frame_of <$> fs)) s
      = Some s' /\
    Phase s' = AwaitMagic1 /\ length (data1 s') = 18%nat /\
    (validated s (concat (frame_of <$> fs))).*2 =
      (fun f => be_words f.1.1) <$> List.filter frame_ok fs /\
    length (std_out s') =
      (length (std_out s) + length (List.filter (fun f => negb (frame_ok f)) fs))%nat.
Proof.
  rewrite parser_feed. intros HP Hd Hfs. revert s HP Hd.
  induction Hfs as [| [[p c1] c2] fs Hp _ IH]; intros s HP Hd.
  - exists s. cbn. repeat split; auto; lia.
  - cbn [fst snd] in Hp. change (Phase s = 0) in HP.
    cbn [fmap list_fmap concat]. unfold frame_of at 1 3. cbn [fst snd].
    rewrite feed_app, validated_app, (validated_frame s p c1 c2 HP Hd Hp).
    pose proof (be_words_length p 18 ltac:(lia)) as Hbw.
    cbn [List.filter]. destruct (frame_ok (p, c1, c2)) eqn:Eok.
    + apply frame_ok_spec in Eok.
      rewrite (frame_valid s p c1 c2 HP Hd Hp Eok). cbn [mbind option_bind negb].
      edestruct IH as (s' & Hrun & Hph & Hd' & Hval & Hstd);
        [| | exists s'; rewrite Hrun]; [reflexivity | exact Hbw |].
      cbn [std_out] in Hstd.
      split; [reflexivity |]. split; [exact Hph |]. split; [exact Hd' |].
      split; [| exact Hstd].
      rewrite fmap_app, Hval. reflexivity.
    + assert (Hne : checksum_word c1 c2 <> byte_sum (xaa :: x55 :: p) mod 65536).
      { intros E. apply frame_ok_spec in E. congruence. }
      rewrite (frame_invalid s p c1 c2 HP Hd Hp Hne). cbn [mbind option_bind negb].
      edestruct IH as (s' & Hrun & Hph & Hd' & Hval & Hstd);
        [| | exists s'; rewrite Hrun]; [reflexivity | exact Hbw |].
      cbn [std_out] in Hstd. rewrite length_app in Hstd. cbn [length] in Hstd.
      split; [reflexivity |]. split; [exact Hph |]. split; [exact Hd' |].
      split; [exact Hval | cbn [length]; lia].
Qed.

Lemma frames_in_sequence_witness :
  Phase parser_init = AwaitMagic1 /\ length (data1 parser_init) = 18%nat /\
  Forall (fun f : list byte * byte * byte => length f.1.1 = 36%nat)
         [(replicate 36 x01, x01, xdc); (replicate 36 x01, x01, x23)] /\
  (validated parser_init (corrupted_frame ++ happy_frame)).*2 = [replicate 18 257].
Proof.
  assert (Hf : Forall (fun f : list byte * byte * byte => length f.1.1 = 36%nat)
                 [(replicate 36 x01, x01, xdc); (replicate 36 x01, x01, x23)])
    by (repeat constructor).
  split; [reflexivity |]. split; [reflexivity |]. split; [exact Hf |].
  destruct (frames_in_sequence
              [(replicate 36 x01, x01, xdc); (replicate 36 x01, x01, x23)] parser_init)
    as (s' & _ & _ & _ & Hval & _); [reflexivity | reflexivity | exact Hf |].
  exact Hval.
Defined.

(** ** Ranges of the fields *)

Lemma to_short_bounds (z : Z) : in_short (to_short z).
Proof.
  unfold in_short, to_short. pose proof (Z.mod_pos_bound (z + 32768) 65536). lia.
Qed.

Lemma case2_any_short (s : state) (b : byte) :
  Phase s = 2 -> 0 <= LocalIndex s < 36 -> length (data1 s) = 18%nat ->
  exists v,
    in_short v /\
    parser_byte s b =
      Some (State (if LocalIndex s + 1 =? 36 then 3 else 2) (to_ushort (Crc s + u8 b))
                  (RdyFlg s) (LocalIndex s + 1) (MsgCRC s)
                  (<[Z.to_nat (LocalIndex s / 2) := v]> (data1 s))
                  (packet s) (out_gs s) (out_eeg s) (std_out s)).
Proof.
  intros HP Ho Hd.
  destruct (Z.Even_or_Odd (LocalIndex s)) as [[k Hk] | [k Hk]].
  - assert (Hw : LocalIndex s / 2 = k) by (symmetry; apply Z.div_unique with 0; lia).
    rewrite Hw, (case2_even s b k) by lia. eexists. split; [apply to_short_bounds |].
    rewrite Hk. destruct (Z.eqb_spec (2 * k + 1) 36); [lia | reflexivity].
  - assert (Hw : LocalIndex s / 2 = k) by (symmetry; apply Z.div_unique with 1; lia).
    rewrite Hw.
    rewrite (case2_odd s b k (word (data1 s) (Z.to_nat k))); try lia.
    + eexists. split; [apply to_short_bounds |].
      rewrite Hk. replace (2 * k + 1 + 1) with (2 * k + 2) by lia.
      destruct (Z.eqb_spec k 17), (Z.eqb_spec (2 * k + 2) 36); try lia; reflexivity.
    + apply lookup_word. lia.
Qed.

Lemma ranges_init : ranges_ok parser_init.
Proof.
  unfold ranges_ok, in_ushort. cbn [Phase Crc MsgCRC packet RdyFlg data1 parser_init].
  repeat split; try lia; try discriminate; auto.
  apply Forall_replicate. unfold in_short. lia.
Qed.

Lemma parser_byte_ranges (s : state) (b : byte) :
  wf s -> ranges_ok s ->
  exists s', parser_byte s b = Some s' /\ wf s' /\ ranges_ok s'.
Proof.
  intros Hw (HPh & HCrc & HC1 & HC2 & HM & HPk & HR & HD).
  unfold in_ushort in HM, HPk.
  destruct (parser_byte_wf s b Hw) as (s1 & Hstep & Hw1 & _).
  exists s1. split; [exact Hstep |]. split; [exact Hw1 |].
  destruct Hw as [Hd Ho]. pose proof (u8_range b) as Hb. revert Hstep.
  destruct (phase_cases s) as [H0 | [H1 | [H2 | [H3 | [H4 | (H0 & H1 & H2 & H3 & H4)]]]]].
  - rewrite (case0_any s b H0). intros [= <-].
    destruct (u8 b =? 0xAA); unfold ranges_ok, in_ushort;
      cbn [Phase Crc MsgCRC packet RdyFlg data1 LocalIndex]; repeat split; auto; lia.
  - rewrite (case1_any s b H1). intros [= <-]. specialize (HC1 H1).
    destruct (u8 b =? 0x55); unfold ranges_ok, in_ushort;
      cbn [Phase Crc MsgCRC packet RdyFlg data1 LocalIndex];
      rewrite ?HC1; try change (to_ushort (170 + 85)) with 255;
      repeat split; auto; lia.
  - specialize (Ho H2). specialize (HC2 H2).
    destruct (case2_any_short s b H2 Ho Hd) as (v & Hv & Hstep). rewrite Hstep.
    intros [= <-]. unfold ranges_ok, in_ushort. cbn [Phase Crc MsgCRC packet RdyFlg data1 LocalIndex].
    rewrite to_ushort_small by lia.
    assert (HD' : Forall in_short (<[Z.to_nat (LocalIndex s / 2) := v]> (data1 s)))
      by (apply Forall_insert; assumption).
    destruct (Z.eqb_spec (LocalIndex s + 1) 36); repeat split; auto; lia.
  - rewrite (case3 s b H3). intros [= <-]. unfold ranges_ok, in_ushort.
    cbn [Phase Crc MsgCRC packet RdyFlg data1 LocalIndex]. repeat split; auto; lia.
  - rewrite (case4_any s b H4 Hd). intros [= <-].
    pose proof (to_ushort_bounds (MsgCRC s + u8 b)).
    pose proof (to_ushort_bounds (packet s + 1)).
    destruct (validates s b); unfold ranges_ok, in_ushort in *;
      cbn [Phase Crc MsgCRC packet RdyFlg data1 LocalIndex]; repeat split; auto; lia.
  - rewrite (case_other s b) by assumption. intros [= <-]. unfold ranges_ok, in_ushort. repeat split; auto; lia.
Qed.

(** Whatever the input, from the initial state: the parser state is defined;
    [Phase] is one of the five cases; the accumulator never exceeds 9435
    (0xAA + 0x55 + 36 * 0xFF), so it never wraps at 16 bits; the received
    checksum and the packet counter stay in the range of [unsigned short],
    [RdyFlg] is 0 or 1, and every word of the buffer stays in the range of
    [short]. *)
Theorem reachable_ranges (bs : list byte) :
  exists s,
    parser (Z.of_nat (length bs)) bs parser_init = Some s /\
    0 <= Phase s <= 4 /\ 0 <= Crc s <= 9435 /\
    in_ushort (MsgCRC s) /\ in_ushort (packet s) /\
    (RdyFlg s = 0 \/ RdyFlg s = 1) /\ Forall in_short (data1 s).
Proof.
  rewrite parser_feed.
  assert (H : forall s, wf s -> ranges_ok s ->
                exists s', feed s bs = Some s' /\ wf s' /\ ranges_ok s').
  { induction bs as [| b bs IH]; intros s Hw Hr; [exists s; auto |].
    destruct (parser_byte_ranges s b Hw Hr) as (s1 & Hstep & Hw1 & Hr1).
    destruct (IH s1 Hw1 Hr1) as (s' & Hrun & Hw' & Hr').
    exists s'. cbn [feed]. rewrite Hstep. auto. }
  destruct (H parser_init wf_init ranges_init)
    as (s & Hrun & _ & (HPh & HCrc & _ & _ & HM & HPk & HR & HD)).
  exists s. split; [exact Hrun |]. auto 10.
Qed.

(** ** The words keep the payload *)

Lemma to_short_inj (a b : Z) :
  0 <= a < 65536 -> 0 <= b < 65536 -> to_short a = to_short b -> a = b.
Proof.
  unfold to_short. intros Ha Hb H.
  destruct (Z.lt_ge_cases a 32768), (Z.lt_ge_cases b 32768).
  - rewrite !Z.mod_small in H by lia. lia.
  - rewrite (Z.mod_small (a + 32768)) in H by lia.
    replace (b + 32768) with (b - 32768 + 1 * 65536) in H by lia.
    rewrite Z.mod_add, Z.mod_small in H by lia. lia.
  - rewrite (Z.mod_small (b + 32768)) in H by lia.
    replace (a + 32768) with (a - 32768 + 1 * 65536) in H by lia.
    rewrite Z.mod_add, Z.mod_small in H by lia. lia.
  - replace (a + 32768) with (a - 32768 + 1 * 65536) in H by lia.
    replace (b + 32768) with (b - 32768 + 1 * 65536) in H by lia.
    rewrite !Z.mod_add, !Z.mod_small in H by lia. lia.
Qed.

(** Decoding loses nothing: two payloads of the same even length with the
    same words are the same bytes. *)
Theorem be_words_injective (p q : list byte) (m : nat) :
  length p = (2 * m)%nat -> length q = (2 * m)%nat ->
  be_words p = be_words q -> p = q.
Proof.
  revert q m. induction p as [| x | h l p IH] using pair_ind; intros q m Hp Hq Hw.
  - cbn [length] in Hp. destruct q; [reflexivity | cbn [length] in Hq; lia].
  - cbn [length] in Hp. lia.
  - cbn [length] in Hp. destruct q as [| h' [| l' q]]; cbn [length] in Hq; try lia.
    cbn [be_words] in Hw. injection Hw as Hw Hrest.
    pose proof (u8_range h). pose proof (u8_range l).
    pose proof (u8_range h'). pose proof (u8_range l').
    apply to_short_inj in Hw; [| lia | lia].
    assert (u8 h = u8 h') by lia. assert (u8 l = u8 l') by lia.
    f_equal; [apply u8_inj; assumption |]. f_equal; [apply u8_inj; assumption |].
    apply (IH q (m - 1)%nat); [lia | lia | exact Hrest].
Qed.

Lemma be_words_injective_witness :
  length [x80; x00] = (2 * 1)%nat /\ be_words [x80; x00] = [-32768] /\
  (be_words [x80; x00] = be_words [x80; x00] -> [x80; x00] = [x80; x00]).
Proof.
  split; [reflexivity |]. split; [reflexivity |].
  apply (be_words_injective [x80; x00] [x80; x00] 1); reflexivity.
Defined.

(** * Further properties of the command encoder *)

Lemma land_ones_8 (a : Z) : Z.land a 0xff = a mod 256.
Proof. change 0xff with (Z.ones 8). rewrite Z.land_ones by lia. reflexivity. Qed.

(** The command byte for any two arguments: the type keeps its low four
    bits only. *)
Lemma command_byte (t o : byte) :
  to_uchar (Z.lor (Z.shiftl (u8 t) 4) (u8 o)) = Z.lor (16 * (u8 t mod 16)) (u8 o).
Proof.
  pose proof (u8_range o). unfold to_uchar.
  rewrite <- land_ones_8, Z.land_lor_distr_l, !land_ones_8.
  rewrite Z.shiftl_mul_pow2 by lia. change (2 ^ 4) with 16.
  rewrite (Z.mod_small (u8 o)) by lia.
  replace (u8 t * 16) with (16 * u8 t) by lia.
  change 256 with (16 * 16). rewrite Z.mul_mod_distr_l by lia. reflexivity.
Qed.

(** The frame [setParam] writes, for any two arguments. *)
Lemma setParam_bytes (t o : byte) (serial : list (list Z)) :
  setParam t o serial =
    serial ++ [[0xAA; 0x55; 0; to_uchar (Z.lor (Z.shiftl (u8 t) 4) (u8 o)); 0; 0;
                (0xFF + to_uchar (Z.lor (Z.shiftl (u8 t) 4) (u8 o))) mod 256; 3]].
Proof.
  unfold setParam, serial_write.
  cbn [replicate insert list_insert lookup_total list_lookup_total].
  change (to_uchar 170) with 170. change (to_uchar 85) with 85.
  change (to_uchar 0) with 0. change (to_uchar 3) with 3.
  unfold to_uchar at 1.
  replace (170 + 85 + 0 + to_uchar (Z.lor (Z.shiftl (u8 t) 4) (u8 o)) + 0 + 0)
    with (255 + to_uchar (Z.lor (Z.shiftl (u8 t) 4) (u8 o))) by lia.
  reflexivity.
Qed.

Lemma command_byte_4bit (t o : byte) :
  u8 t < 16 -> u8 o < 16 ->
  to_uchar (Z.lor (Z.shiftl (u8 t) 4) (u8 o)) = 16 * u8 t + u8 o.
Proof.
  intros Ht Ho. pose proof (u8_range t). pose proof (u8_range o).
  rewrite command_byte, (Z.mod_small (u8 t)) by lia.
  replace (16 * u8 t) with (u8 t * 2 ^ 4) by (change (2 ^ 4) with 16; lia).
  apply lor_low_bits; [lia |]. change (2 ^ 4) with 16. lia.
Qed.

(** Whatever the two arguments, [setParam] adds one write of eight bytes,
    each a byte value, that begins 0xAA 0x55 0x00 and ends 0x03; byte 6 is
    the 8-bit sum of bytes 0..5, which is the command byte minus one modulo
    256; and the command byte is (low four bits of the type) << 4 OR-ed with
    the whole option byte. *)
Theorem setParam_any_arguments (t o : byte) (serial : list (list Z)) :
  exists k,
    k = Z.lor (16 * (u8 t mod 16)) (u8 o) /\ 0 <= k < 256 /\
    setParam t o serial = serial ++ [[0xAA; 0x55; 0; k; 0; 0; (k + 255) mod 256; 3]] /\
    (0xAA + 0x55 + 0 + k + 0 + 0) mod 256 = (k + 255) mod 256 /\
    (k + 255) mod 256 = (if k =? 0 then 255 else k - 1).
Proof.
  exists (to_uchar (Z.lor (Z.shiftl (u8 t) 4) (u8 o))).
  assert (Hk : 0 <= to_uchar (Z.lor (Z.shiftl (u8 t) 4) (u8 o)) < 256)
    by (unfold to_uchar; apply Z.mod_pos_bound; lia).
  split; [apply command_byte |]. split; [exact Hk |].
  split; [rewrite setParam_bytes, (Z.add_comm _ 255); reflexivity |].
  split; [f_equal; lia |].
  destruct (Z.eqb_spec (to_uchar (Z.lor (Z.shiftl (u8 t) 4) (u8 o))) 0) as [E | E].
  - rewrite E. reflexivity.
  - replace (to_uchar (Z.lor (Z.shiftl (u8 t) 4) (u8 o)) + 255)
      with (to_uchar (Z.lor (Z.shiftl (u8 t) 4) (u8 o)) - 1 + 1 * 256) by lia.
    rewrite Z.mod_add, Z.mod_small; lia.
Qed.

(** A type above 15 is taken for its low four bits: two types that agree on
    them give the same frame. *)
Theorem setParam_type_low_bits (t t' o : byte) (serial : list (list Z)) :
  u8 t mod 16 = u8 t' mod 16 -> setParam t o serial = setParam t' o serial.
Proof.
  intros H. rewrite !setParam_bytes, !command_byte, H. reflexivity.
Qed.

Lemma setParam_type_low_bits_witness :
  u8 x11 mod 16 = u8 x01 mod 16 /\ setParam x11 x01 [] = setParam x01 x01 [].
Proof.
  split; [reflexivity |]. apply (setParam_type_low_bits x11 x01 x01 []). reflexivity.
Defined.

(** For 4-bit arguments the frame gives them back: the high and the low
    half of byte 3 are the type and the option, so different commands never
    share a frame. *)
Theorem setParam_decodes (t o t' o' : byte) (serial : list (list Z)) :
  u8 t < 16 -> u8 o < 16 -> u8 t' < 16 -> u8 o' < 16 ->
  (exists f,
     setParam t o serial = serial ++ [f] /\ length f = 8%nat /\
     Z.shiftr (f !!! 3%nat) 4 = u8 t /\ Z.land (f !!! 3%nat) 0xF = u8 o) /\
  (setParam t o serial = setParam t' o' serial -> t = t' /\ o = o').
Proof.
  intros Ht Ho Ht' Ho'.
  pose proof (u8_range t). pose proof (u8_range o).
  pose proof (u8_range t'). pose proof (u8_range o').
  split.
  - eexists. split; [apply setParam_bytes |]. split; [reflexivity |].
    cbn [lookup_total list_lookup_total]. rewrite command_byte_4bit by assumption.
    split.
    + rewrite Z.shiftr_div_pow2 by lia. change (2 ^ 4) with 16.
      symmetry. apply Z.div_unique with (u8 o); lia.
    + change 0xF with (Z.ones 4). rewrite Z.land_ones by lia. change (2 ^ 4) with 16.
      symmetry. apply Z.mod_unique with (u8 t); lia.
  - rewrite !setParam_bytes, !command_byte_4bit by assumption.
    intros E. apply app_inv_head in E. injection E as E _.
    split; apply u8_inj; lia.
Qed.

Lemma setParam_decodes_witness :
  u8 x03 < 16 /\ u8 x01 < 16 /\ u8 x02 < 16 /\
  (setParam x03 x01 [] = setParam x02 x01 [] -> x03 = x02 /\ x01 = x01).
Proof.
  split; [reflexivity |]. split; [reflexivity |]. split; [reflexivity |].
  destruct (setParam_decodes x03 x01 x02 x01 []) as [_ H];
    [reflexivity | reflexivity | reflexivity | reflexivity |].
  exact H.
Defined.

(** * The collection loop of [main] *)

(** One iteration, with the call of [parser] read as [feed]. *)
Lemma collect_loop_cons (t1 : Z) (q : poll) (polls : list poll) (buffer : list byte)
    (s : state) :
  (length (chunk q) <= 1000)%nat -> (length (chunk q) <= length buffer)%nat ->
  collect_loop t1 (q :: polls) buffer s =
    if (length (chunk q) =? 0)%nat
    then collect_loop t1 polls (chunk q ++ drop (length (chunk q)) buffer) s
    else
      s' ← (if to_int (tick q - t1) >? 10000 then feed s (chunk q) else Some s);
      if packet s' >? 160 * 60 * 2 then Some (s', true)
      else collect_loop t1 polls (chunk q ++ drop (length (chunk q)) buffer) s'.
Proof.
  intros H1 H2. cbn [collect_loop]. unfold serial_read.
  replace (length (chunk q) <=? 1000)%nat with true by (symmetry; apply Nat.leb_le; lia).
  replace (length (chunk q) <=? length buffer)%nat with true
    by (symmetry; apply Nat.leb_le; lia).
  cbn [andb mbind option_bind fst snd].
  assert (Hp : parser (Z.of_nat (length (chunk q)))
                      (chunk q ++ drop (length (chunk q)) buffer) s = feed s (chunk q)).
  { unfold parser. rewrite Nat2Z.id.
    apply (parser_loop_feed_rest (chunk q) [] (drop (length (chunk q)) buffer) s). }
  rewrite Hp.
  destruct (Nat.eqb_spec (length (chunk q)) 0) as [E | E].
  - rewrite E. reflexivity.
  - replace (Z.of_nat (length (chunk q)) =? 0) with false
      by (symmetry; apply Z.eqb_neq; lia).
    reflexivity.
Qed.

Lemma read_keeps_length (c buffer : list byte) :
  (length c <= length buffer)%nat ->
  length (c ++ drop (length c) buffer) = length buffer.
Proof. intros H. rewrite length_app, length_drop. lia. Qed.

(** During the warm-up, that is while the tick is at most 10000 ms past
    [t1], what is read never reaches the parser: the state after any number
    of iterations is the state before them, and with the packet counter at
    most 19200 the loop is still running. *)
Theorem warm_up_discards (t1 : Z) (polls : list poll) (buffer : list byte) (s : state) :
  length buffer = 1000%nat ->
  Forall (fun q => to_int (tick q - t1) <= 10000 /\ (length (chunk q) <= 1000)%nat) polls ->
  exists brk,
    collect_loop t1 polls buffer s = Some (s, brk) /\ (packet s <= 19200 -> brk = false).
Proof.
  intros Hb Hp. revert buffer Hb.
  induction Hp as [| q polls [Hq1 Hq2] _ IH]; intros buffer Hb.
  - exists false. split; reflexivity.
  - rewrite collect_loop_cons by lia.
    pose proof (read_keeps_length (chunk q) buffer ltac:(lia)) as Hb'. rewrite Hb in Hb'.
    destruct (length (chunk q) =? 0)%nat; [apply IH; exact Hb' |].
    destruct (Z.gtb_spec (to_int (tick q - t1)) 10000) as [Hw | _]; [lia |].
    cbn [mbind option_bind]. change (160 * 60 * 2) with 19200.
    destruct (Z.gtb_spec (packet s) 19200) as [Hgt | Hle].
    + exists true. split; [reflexivity | lia].
    + apply IH. exact Hb'.
Qed.

Lemma warm_up_discards_witness :
  length (replicate 1000 x00) = 1000%nat /\
  Forall (fun q => to_int (tick q - 5000) <= 10000 /\ (length (chunk q) <= 1000)%nat)
         [Poll 5100 happy_frame; Poll 15000 happy_frame] /\
  collect_loop 5000 [Poll 5100 happy_frame; Poll 15000 happy_frame]
               (replicate 1000 x00) parser_init = Some (parser_init, false).
Proof.
  assert (Hf : Forall (fun q => to_int (tick q - 5000) <= 10000 /\
                                (length (chunk q) <= 1000)%nat)
                 [Poll 5100 happy_frame; Poll 15000 happy_frame]).
  { repeat constructor; vm_compute; try discriminate; lia. }
  split; [reflexivity |]. split; [exact Hf |].
  destruct (warm_up_discards 5000 [Poll 5100 happy_frame; Poll 15000 happy_frame]
              (replicate 1000 x00) parser_init eq_refl Hf) as (brk & Hrun & Hbrk).
  rewrite Hrun, Hbrk; [reflexivity |]. vm_compute. discriminate.
Defined.

(** Past the warm-up every read reaches the parser, so the loop is [parser]
    called in turn on the chunks read up to the iteration where it leaves.
    Started with the packet counter at most 19200 it leaves only after a
    read that is not empty, with the counter between 19201 and 19225 (a read
    of at most 1000 bytes holds at most 25 frames), and while it runs the
    counter is at most 19200. *)
Theorem collection_after_warm_up
    (t1 : Z) (polls : list poll) (buffer : list byte) (s : state) :
  length buffer = 1000%nat -> wf s -> 0 <= packet s <= 19200 ->
  Forall (fun q => to_int (tick q - t1) > 10000 /\ (length (chunk q) <= 1000)%nat) polls ->
  exists (s' : state) (brk : bool) (n : nat),
    collect_loop t1 polls buffer s = Some (s', brk) /\
    (n <= length polls)%nat /\
    parser_chunks (chunk <$> take n polls) s = Some s' /\
    (brk = true -> 19200 < packet s' <= 19225) /\
    (brk = false -> n = length polls /\ 0 <= packet s' <= 19200).
Proof.
  intros Hb Hs Hpk Hp. revert buffer s Hb Hs Hpk.
  induction Hp as [| q polls [Hq1 Hq2] _ IH]; intros buffer s Hb Hs Hpk.
  - exists s, false, 0%nat. cbn. repeat split; try lia; discriminate.
  - rewrite collect_loop_cons by lia.
    pose proof (read_keeps_length (chunk q) buffer ltac:(lia)) as Hb'. rewrite Hb in Hb'.
    destruct (Nat.eqb_spec (length (chunk q)) 0) as [E | E].
    + destruct (IH _ s Hb' Hs Hpk) as (s' & brk & n & Hrun & Hn & Hch & Hbrk).
      exists s', brk, (S n). split; [exact Hrun |]. split; [cbn [length]; lia |].
      split; [| cbn [length]; destruct Hbrk as [Ht Hf]; split; [exact Ht |];
                intros Hx; destruct (Hf Hx); split; [lia | assumption]].
      cbn [take fmap list_fmap parser_chunks]. rewrite parser_feed.
      destruct (chunk q); [| cbn [length] in E; lia]. exact Hch.
    + destruct (Z.gtb_spec (to_int (tick q - t1)) 10000) as [_ | Hw]; [| lia].
      destruct (feed_counts (chunk q) s Hs ltac:(unfold in_ushort; lia))
        as (s1 & Hfeed & Hs1 & Hp1 & _ & Hrate).
      pose proof (frame_pos_bounds s Hs) as Hpos.
      assert (Hnv : Z.of_nat (length (validated s (chunk q))) <= 25) by lia.
      rewrite to_ushort_small in Hp1 by lia.
      rewrite Hfeed. cbn [mbind option_bind]. change (160 * 60 * 2) with 19200.
      destruct (Z.gtb_spec (packet s1) 19200) as [Hgt | Hle].
      * exists s1, true, 1%nat. split; [reflexivity |]. split; [cbn [length]; lia |].
        split; [| split; [intros _; lia | discriminate]].
        cbn [take fmap list_fmap parser_chunks]. rewrite take_0. cbn [fmap list_fmap].
        rewrite parser_feed, Hfeed. reflexivity.
      * destruct (IH _ s1 Hb' Hs1 ltac:(lia)) as (s' & brk & n & Hrun & Hn & Hch & Hbrk).
        exists s', brk, (S n). split; [exact Hrun |]. split; [cbn [length]; lia |].
        split; [| cbn [length]; destruct Hbrk as [Ht Hf]; split; [exact Ht |];
                  intros Hx; destruct (Hf Hx); split; [lia | assumption]].
        cbn [take fmap list_fmap parser_chunks]. rewrite parser_feed, Hfeed. exact Hch.
Qed.

Lemma collection_after_warm_up_witness :
  length (replicate 1000 x00) = 1000%nat /\
  wf (State 0 0 0 0 0 (replicate 18 0) 19200 [] [] []) /\ 0 <= 19200 <= 19200 /\
  Forall (fun q => to_int (tick q - 5000) > 10000 /\ (length (chunk q) <= 1000)%nat)
         [Poll 15001 happy_frame; Poll 15002 happy_frame] /\
  exists s',
    collect_loop 5000 [Poll 15001 happy_frame; Poll 15002 happy_frame]
      (replicate 1000 x00) (State 0 0 0 0 0 (replicate 18 0) 19200 [] [] [])
      = Some (s', true) /\ 19200 < packet s' <= 19225.
Proof.
  assert (Hw : wf (State 0 0 0 0 0 (replicate 18 0) 19200 [] [] []))
    by (split; [reflexivity | cbn; lia]).
  assert (Hf : Forall (fun q => to_int (tick q - 5000) > 10000 /\
                                (length (chunk q) <= 1000)%nat)
                 [Poll 15001 happy_frame; Poll 15002 happy_frame]).
  { repeat constructor; vm_compute; try reflexivity; lia. }
  split; [reflexivity |]. split; [exact Hw |]. split; [lia |]. split; [exact Hf |].
  destruct (collection_after_warm_up 5000 [Poll 15001 happy_frame; Poll 15002 happy_frame]
              (replicate 1000 x00) (State 0 0 0 0 0 (replicate 18 0) 19200 [] [] [])
              eq_refl Hw ltac:(cbn; lia) Hf)
    as (s' & brk & n & Hrun & _ & _ & Ht & Hfalse).
  destruct brk.
  - exists s'. split; [exact Hrun | apply Ht; reflexivity].
  - exfalso. vm_compute in Hrun. discriminate Hrun.
Defined.

(** Two things the loop does not depend on: the iterations whose read is
    empty, and what the buffer held before a read (the parser is given the
    size read and never looks past it). *)
Theorem collection_depends_on_chunks_only
    (t1 : Z) (polls : list poll) (buffer buffer' : list byte) (s : state) :
  length buffer = length buffer' ->
  collect_loop t1 polls buffer s =
    collect_loop t1 (List.filter (fun q => negb (length (chunk q) =? 0)%nat) polls) buffer' s.
Proof.
  revert buffer buffer' s.
  induction polls as [| q polls IH]; intros buffer buffer' s Hb; [reflexivity |].
  cbn [List.filter].
  destruct (Nat.eqb_spec (length (chunk q)) 0) as [E | E]; cbn [negb].
  - cbn [collect_loop]. unfold serial_read. rewrite E.
    cbn [Nat.leb andb mbind option_bind fst snd Z.of_nat Z.eqb negb drop].
    destruct (chunk q); [| cbn [length] in E; lia]. cbn [app]. apply IH. exact Hb.
  - destruct (Nat.le_gt_cases (length (chunk q)) 1000) as [H1 | H1];
      [destruct (Nat.le_gt_cases (length (chunk q)) (length buffer)) as [H2 | H2] |].
    + rewrite !collect_loop_cons by lia.
      destruct (Nat.eqb_spec (length (chunk q)) 0) as [| _]; [contradiction |].
      destruct (if to_int (tick q - t1) >? 10000 then feed s (chunk q) else Some s)
        as [s1 |]; [| reflexivity].
      cbn [mbind option_bind]. destruct (packet s1 >? 160 * 60 * 2); [reflexivity |].
      apply IH. rewrite !read_keeps_length by lia. exact Hb.
    + cbn [collect_loop]. unfold serial_read.
      replace (length (chunk q) <=? length buffer)%nat with false
        by (symmetry; apply Nat.leb_gt; lia).
      replace (length (chunk q) <=? length buffer')%nat with false
        by (symmetry; apply Nat.leb_gt; lia).
      rewrite !andb_false_r. reflexivity.
    + cbn [collect_loop]. unfold serial_read.
      replace (length (chunk q) <=? 1000)%nat with false
        by (symmetry; apply Nat.leb_gt; lia).
      reflexivity.
Qed.

Lemma collection_depends_on_chunks_only_witness :
  length (replicate 1000 x00) = length (replicate 1000 xff) /\
  collect_loop 0 [Poll 20000 []; Poll 20001 happy_frame] (replicate 1000 x00) parser_init =
    collect_loop 0 [Poll 20001 happy_frame] (replicate 1000 xff) parser_init.
Proof.
  split; [reflexivity |].
  apply (collection_depends_on_chunks_only 0 [Poll 20000 []; Poll 20001 happy_frame]
           (replicate 1000 x00) (replicate 1000 xff) parser_init).
  reflexivity.
Defined.
